(** * A shallow embedding of the chess core of [chess_game.py]

    The Python program keeps a board as a list of eight row lists whose
    cells hold either [None] or a [Piece] object, and a move as a pair of
    coordinate pairs.  The embedding keeps those shapes: coordinates are
    [Z] (Python integers), lists are indexed with Python's rules (negative
    indices count from the end, anything else out of range raises
    [IndexError]), and every function that can raise returns a [result].
    The colour tags ['w'], ['b'] and the kind tags ['K'] ... ['P'] are the
    constructors of [Color] and [Kind].

    The functional model comes first, then a model of [clone_board] and
    [make_move] over a store of list objects, then the statements: the
    generators' invariant, the legality filter, the material sum, the move
    selector, and the refinement of the functional [make_move] by the one
    on the store. *)

From stdpp Require Import base numbers list option strings gmap.

Open Scope Z_scope.

(** ** Exceptions and the error monad *)

Inductive exn := IndexError | TypeError | OutOfFuel.

Inductive result (A : Type) : Type :=
  | Ok (x : A)
  | Raise (e : exn).
Arguments Ok {A} x.
Arguments Raise {A} e.

Definition bind {A B} (m : result A) (k : A -> result B) : result B :=
  match m with
  | Ok x => k x
  | Raise e => Raise e
  end.

Notation "'let!' x ':=' m 'in' k" := (bind m (fun x => k))
  (at level 10, x name, m at level 100, k at level 200).

(** A Python [for x in xs: body] over a state [s]; [continue] is a body
    that returns the state unchanged. *)
Fixpoint for_loop {A S} (xs : list A) (body : A -> S -> result S) (s : S)
  : result S :=
  match xs with
  | [] => Ok s
  | x :: xs' => let! s' := body x s in for_loop xs' body s'
  end.

(** ** Python list indexing *)

Definition py_index (n : nat) (i : Z) : result nat :=
  if 0 <=? i then
    if i <? Z.of_nat n then Ok (Z.to_nat i) else Raise IndexError
  else
    if 0 <=? Z.of_nat n + i then Ok (Z.to_nat (Z.of_nat n + i))
    else Raise IndexError.

Definition getitem {A} (l : list A) (i : Z) : result A :=
  let! k := py_index (length l) i in
  match l !! k with
  | Some x => Ok x
  | None => Raise IndexError
  end.

Definition setitem {A} (l : list A) (i : Z) (x : A) : result (list A) :=
  let! k := py_index (length l) i in
  Ok (<[k:=x]> l).

Definition range (n : Z) : list Z := seqZ 0 n.

(** ** Data model *)

Definition ROWS : Z := 8.
Definition COLS : Z := 8.

Inductive Color := White | Black.
Inductive Kind := King | Queen | Rook | Bishop | Knight | Pawn.

Record Piece := mkPiece { color : Color; kind : Kind }.

Global Instance Color_eq_dec : EqDecision Color.
Proof. solve_decision. Defined.
Global Instance Kind_eq_dec : EqDecision Kind.
Proof. solve_decision. Defined.
Global Instance Piece_eq_dec : EqDecision Piece.
Proof. solve_decision. Defined.

Abbreviation Square := (Z * Z)%type (only parsing).
Abbreviation Board := (list (list (option Piece))) (only parsing).
Abbreviation Move := ((Z * Z) * (Z * Z))%type (only parsing).

Definition PIECE_VALUES (k : Kind) : Z :=
  match k with
  | King => 0
  | Queen => 9
  | Rook => 5
  | Bishop => 3
  | Knight => 3
  | Pawn => 1
  end.

Definition color_eqb (a b : Color) : bool := bool_decide (a = b).
Definition kind_eqb (a b : Kind) : bool := bool_decide (a = b).
Definition square_eqb (a b : Square) : bool :=
  (a.1 =? b.1) && (a.2 =? b.2).

(** ["b" if color == "w" else "w"] *)
Definition opponent (c : Color) : Color :=
  match c with
  | White => Black
  | Black => White
  end.

Definition board_get (board : Board) (r c : Z) : result (option Piece) :=
  let! row := getitem board r in
  getitem row c.

(** [board[r][c] = x] on a board whose rows are not shared. *)
Definition board_set (board : Board) (r c : Z) (x : option Piece)
  : result Board :=
  let! row := getitem board r in
  let! row' := setitem row c x in
  setitem board r row'.

(** ** Game logic *)

Definition empty_board : Board :=
  replicate (Z.to_nat ROWS) (replicate (Z.to_nat COLS) None).

Definition order : list Kind :=
  [Rook; Knight; Bishop; Queen; King; Bishop; Knight; Rook].

Definition enumerate {A} (l : list A) : list (Z * A) :=
  zip (seqZ 0 (Z.of_nat (length l))) l.

Definition initial_board : result Board :=
  let board := empty_board in
  let! board :=
    for_loop (enumerate order) (fun '(c, k) board =>
      let! board := board_set board 0 c (Some (mkPiece Black k)) in
      board_set board 7 c (Some (mkPiece White k))) board in
  for_loop (range COLS) (fun c board =>
    let! board := board_set board 1 c (Some (mkPiece Black Pawn)) in
    board_set board 6 c (Some (mkPiece White Pawn))) board.

Definition in_bounds (r c : Z) : bool :=
  (0 <=? r) && (r <? ROWS) && (0 <=? c) && (c <? COLS).

Definition is_king_of (clr : Color) (p : option Piece) : bool :=
  match p with
  | Some p => color_eqb (color p) clr && kind_eqb (kind p) King
  | None => false
  end.

Fixpoint find_king_cols (board : Board) (clr : Color) (r : Z) (cs : list Z)
  : result (option Square) :=
  match cs with
  | [] => Ok None
  | c :: cs' =>
      let! p := board_get board r c in
      if is_king_of clr p then Ok (Some (r, c))
      else find_king_cols board clr r cs'
  end.

Fixpoint find_king_rows (board : Board) (clr : Color) (rs : list Z)
  : result (option Square) :=
  match rs with
  | [] => Ok None
  | r :: rs' =>
      let! found := find_king_cols board clr r (range COLS) in
      match found with
      | Some sq => Ok (Some sq)
      | None => find_king_rows board clr rs'
      end
  end.

Definition find_king (board : Board) (clr : Color) : result (option Square) :=
  find_king_rows board clr (range ROWS).

(** [Piece(p.color, p.kind) if p else None] *)
Definition clone_cell (p : option Piece) : option Piece :=
  match p with
  | Some p => Some (mkPiece (color p) (kind p))
  | None => None
  end.

Definition clone_board (board : Board) : Board :=
  map (map clone_cell) board.

Definition make_move (board : Board) (move : Move) : result Board :=
  let '((r1, c1), (r2, c2)) := move in
  let newb := clone_board board in
  let! piece := board_get newb r1 c1 in
  let! newb := board_set newb r1 c1 None in
  let! newb := board_set newb r2 c2 piece in
  match piece with
  | Some pc =>
      if kind_eqb (kind pc) Pawn then
        let! newb :=
          (if color_eqb (color pc) White && (r2 =? 0)
           then board_set newb r2 c2 (Some (mkPiece White Queen))
           else Ok newb) in
        if color_eqb (color pc) Black && (r2 =? ROWS - 1)
        then board_set newb r2 c2 (Some (mkPiece Black Queen))
        else Ok newb
      else Ok newb
  | None => Ok newb
  end.

(** *** Per-piece generators: each appends to the [moves] list it is given *)

Definition pawn_moves (board : Board) (r c : Z) (p : Piece)
  (moves : list Move) : result (list Move) :=
  let dir := if color_eqb (color p) White then -1 else 1 in
  let start_row := if color_eqb (color p) White then 6 else 1 in
  let nr := r + dir in
  let! moves :=
    (if in_bounds nr c then
       let! q := board_get board nr c in
       match q with
       | None =>
           let moves := moves ++ [((r, c), (nr, c))] in
           let nr2 := r + 2 * dir in
           if r =? start_row then
             let! q2 := board_get board nr2 c in
             match q2 with
             | None => Ok (moves ++ [((r, c), (nr2, c))])
             | Some _ => Ok moves
             end
           else Ok moves
       | Some _ => Ok moves
       end
     else Ok moves) in
  for_loop [-1; 1] (fun dc moves =>
    let nc := c + dc in
    let nr := r + dir in
    if in_bounds nr nc then
      let! q := board_get board nr nc in
      match q with
      | Some q =>
          if negb (color_eqb (color q) (color p))
          then Ok (moves ++ [((r, c), (nr, nc))])
          else Ok moves
      | None => Ok moves
      end
    else Ok moves) moves.

(** The shared body of [knight_moves] and [king_moves]: step to
    [(r + dr, c + dc)] when it is on the board and not held by a piece of
    the mover's colour. *)
Definition step_move (board : Board) (r c : Z) (p : Piece) (dr dc : Z)
  (moves : list Move) : result (list Move) :=
  let nr := r + dr in
  let nc := c + dc in
  if negb (in_bounds nr nc) then Ok moves
  else
    let! q := board_get board nr nc in
    match q with
    | None => Ok (moves ++ [((r, c), (nr, nc))])
    | Some q =>
        if negb (color_eqb (color q) (color p))
        then Ok (moves ++ [((r, c), (nr, nc))])
        else Ok moves
    end.

Definition jumps : list (Z * Z) :=
  [(2, 1); (2, -1); (-2, 1); (-2, -1); (1, 2); (1, -2); (-1, 2); (-1, -2)].

Definition knight_moves (board : Board) (r c : Z) (p : Piece)
  (moves : list Move) : result (list Move) :=
  for_loop jumps (fun '(dr, dc) moves => step_move board r c p dr dc moves)
    moves.

(** The [while in_bounds(nr, nc)] loop of [slide_moves]; [fuel] bounds the
    number of times the loop condition is evaluated. *)
Fixpoint slide_ray (fuel : nat) (board : Board) (r c : Z) (p : Piece)
  (dr dc nr nc : Z) (moves : list Move) : result (list Move) :=
  match fuel with
  | O => Raise OutOfFuel
  | S fuel' =>
      if in_bounds nr nc then
        let! q := board_get board nr nc in
        match q with
        | None =>
            slide_ray fuel' board r c p dr dc (nr + dr) (nc + dc)
              (moves ++ [((r, c), (nr, nc))])
        | Some q =>
            if negb (color_eqb (color q) (color p))
            then Ok (moves ++ [((r, c), (nr, nc))])
            else Ok moves
        end
      else Ok moves
  end.

Definition ray_fuel : nat := 9.

Definition slide_moves (board : Board) (r c : Z) (p : Piece)
  (moves : list Move) (deltas : list (Z * Z)) : result (list Move) :=
  for_loop deltas (fun '(dr, dc) moves =>
    slide_ray ray_fuel board r c p dr dc (r + dr) (c + dc) moves) moves.

Definition bishop_deltas : list (Z * Z) :=
  [(1, 1); (1, -1); (-1, 1); (-1, -1)].
Definition rook_deltas : list (Z * Z) :=
  [(1, 0); (-1, 0); (0, 1); (0, -1)].
Definition queen_deltas : list (Z * Z) :=
  [(1, 1); (1, -1); (-1, 1); (-1, -1); (1, 0); (-1, 0); (0, 1); (0, -1)].

Definition bishop_moves (board : Board) (r c : Z) (p : Piece)
  (moves : list Move) : result (list Move) :=
  slide_moves board r c p moves bishop_deltas.

Definition rook_moves (board : Board) (r c : Z) (p : Piece)
  (moves : list Move) : result (list Move) :=
  slide_moves board r c p moves rook_deltas.

Definition queen_moves (board : Board) (r c : Z) (p : Piece)
  (moves : list Move) : result (list Move) :=
  slide_moves board r c p moves queen_deltas.

Definition king_moves (board : Board) (r c : Z) (p : Piece)
  (moves : list Move) : result (list Move) :=
  for_loop [-1; 0; 1] (fun dr moves =>
    for_loop [-1; 0; 1] (fun dc moves =>
      if (dr =? 0) && (dc =? 0) then Ok moves
      else step_move board r c p dr dc moves) moves) moves.

Definition generate_pseudo_legal_moves (board : Board) (clr : Color)
  : result (list Move) :=
  for_loop (range ROWS) (fun r moves =>
    for_loop (range COLS) (fun c moves =>
      let! p := board_get board r c in
      match p with
      | None => Ok moves
      | Some p =>
          if negb (color_eqb (color p) clr) then Ok moves
          else
            match kind p with
            | Pawn => pawn_moves board r c p moves
            | Knight => knight_moves board r c p moves
            | Bishop => bishop_moves board r c p moves
            | Rook => rook_moves board r c p moves
            | Queen => queen_moves board r c p moves
            | King => king_moves board r c p moves
            end
      end) moves) [].

Definition is_square_attacked (board : Board) (target : Square)
  (by_color : Color) : result bool :=
  let! moves := generate_pseudo_legal_moves board by_color in
  Ok (existsb (fun m : Move => square_eqb m.2 target) moves).

Definition is_in_check (board : Board) (clr : Color) : result bool :=
  let! king_pos := find_king board clr in
  match king_pos with
  | None => Ok false
  | Some king_pos => is_square_attacked board king_pos (opponent clr)
  end.

Definition generate_legal_moves (board : Board) (clr : Color)
  : result (list Move) :=
  let! pseudo := generate_pseudo_legal_moves board clr in
  for_loop pseudo (fun m legal =>
    let! nb := make_move board m in
    let! chk := is_in_check nb clr in
    if negb chk then Ok (legal ++ [m]) else Ok legal) [].

(** ** AI: one-ply material evaluation *)

Definition evaluate_material (board : Board) : result Z :=
  for_loop (range ROWS) (fun r score =>
    for_loop (range COLS) (fun c score =>
      let! p := board_get board r c in
      match p with
      | Some p =>
          let v := PIECE_VALUES (kind p) in
          Ok (score + (if color_eqb (color p) White then v else - v))
      | None => Ok score
      end) score) 0.

(** [random.choice(l)]: the random source is the number [rnd], reduced to an
    index of [l]; on an empty list Python raises [IndexError]. *)
Definition random_choice {A} (rnd : nat) (l : list A) : result A :=
  match l with
  | [] => Raise IndexError
  | _ :: _ => getitem l (Z.of_nat (rnd mod length l))
  end.

(** [sc = evaluate_material(make_move(board, m)) * sign] *)
Definition move_score (board : Board) (clr : Color) (m : Move) : result Z :=
  let sign := if color_eqb clr White then 1 else -1 in
  let! nb := make_move board m in
  let! e := evaluate_material nb in
  Ok (e * sign).

Definition ai_step (board : Board) (clr : Color) (m : Move)
  (st : option Z * list Move) : result (option Z * list Move) :=
  let '(best_score, best_moves) := st in
  let! sc := move_score board clr m in
  match best_score with
  | None => Ok (Some sc, [m])
  | Some bs =>
      if bs <? sc then Ok (Some sc, [m])
      else if sc =? bs then Ok (best_score, best_moves ++ [m])
      else Ok (best_score, best_moves)
  end.

Definition ai_choose_move (rnd : nat) (board : Board) (clr : Color)
  : result (option Move) :=
  let! legal := generate_legal_moves board clr in
  match legal with
  | [] => Ok None
  | _ :: _ =>
      let! st := for_loop legal (ai_step board clr) (None, []) in
      let! m :=
        (match st.2 with
         | _ :: _ => random_choice rnd st.2
         | [] => random_choice rnd legal
         end) in
      Ok (Some m)
  end.

(** ** Game controller: the fields and the method the core's terminal-state
    detection uses *)

Record Game := mkGame {
  board : Board;
  turn : Color;
  selected : option Square;
  legal_for_selected : list Square;
  game_over : bool;
  result_text : string
}.

Definition check_game_end (self : Game) : result Game :=
  let! legal := generate_legal_moves (board self) (turn self) in
  match legal with
  | [] =>
      let! chk := is_in_check (board self) (turn self) in
      if chk then
        Ok (mkGame (board self) (turn self) (selected self)
              (legal_for_selected self) true
              ("Checkmate! " +:+
               (if color_eqb (turn self) Black then "White" else "Black")
               +:+ " wins."))
      else
        Ok (mkGame (board self) (turn self) (selected self)
              (legal_for_selected self) true "Stalemate! Draw.")
  | _ :: _ => Ok self
  end.

(** ** Game controller: the other methods

    The controller's window, clock and renderer are left out; what is kept
    is the state the methods read and assign. *)

Definition WIDTH : Z := 640.
Definition HEIGHT : Z := 640.
Definition TILE_SIZE : Z := WIDTH / COLS.

(** The rectangle [(x, y, width, height)] that [draw_board] fills for
    the square [(r, c)]. *)
Definition square_rect (r c : Z) : Z * Z * Z * Z :=
  (c * TILE_SIZE, r * TILE_SIZE, TILE_SIZE, TILE_SIZE).

(** [//] on Python integers rounds down, as [Z.div] does for a positive
    divisor. *)
Definition square_at_pixel (pos : Z * Z) : option Square :=
  let '(x, y) := pos in
  let c := x / TILE_SIZE in
  let r := y / TILE_SIZE in
  if in_bounds r c then Some (r, c) else None.

Definition set_selection (self : Game) (sel : option Square)
  (legals : list Square) : Game :=
  mkGame (board self) (turn self) sel legals (game_over self)
    (result_text self).

Definition update_legals_for_selected (self : Game) : result Game :=
  let self := set_selection self (selected self) [] in
  match selected self with
  | None => Ok self
  | Some (r, c) =>
      let! p := board_get (board self) r c in
      match p with
      | None => Ok self
      | Some p =>
          if negb (color_eqb (color p) (turn self)) then Ok self
          else
            let! all_legals := generate_legal_moves (board self) (turn self) in
            Ok (set_selection self (selected self)
                  (map snd
                     (List.filter (fun m : Move => square_eqb m.1 (r, c))
                        all_legals)))
      end
  end.

Definition apply_move (self : Game) (move : Move) : result Game :=
  let! nb := make_move (board self) move in
  check_game_end
    (mkGame nb (opponent (turn self)) None [] (game_over self)
       (result_text self)).

Definition click (self : Game) (pos : Z * Z) : result Game :=
  if game_over self then Ok self
  else
    match square_at_pixel pos with
    | None => Ok self
    | Some (r, c) =>
        match selected self with
        | Some sel =>
            if existsb (square_eqb (r, c)) (legal_for_selected self)
            then apply_move self (sel, (r, c))
            else
              let! p := board_get (board self) r c in
              match p with
              | Some p =>
                  if color_eqb (color p) (turn self)
                  then update_legals_for_selected
                         (set_selection self (Some (r, c))
                            (legal_for_selected self))
                  else Ok (set_selection self None [])
              | None => Ok (set_selection self None [])
              end
        | None =>
            let! p := board_get (board self) r c in
            match p with
            | Some p =>
                if color_eqb (color p) (turn self)
                then update_legals_for_selected
                       (set_selection self (Some (r, c))
                          (legal_for_selected self))
                else Ok self
            | None => Ok self
            end
        end
    end.

(** [pygame.time.delay(200)] pauses and changes no state; [rnd] is the
    random source of [ai_choose_move]. *)
Definition ai_move_if_needed (rnd : nat) (self : Game) : result Game :=
  if game_over self then Ok self
  else if color_eqb (turn self) Black then
    let! mv := ai_choose_move rnd (board self) Black in
    match mv with
    | None => check_game_end self
    | Some mv =>
        let! nb := make_move (board self) mv in
        check_game_end
          (mkGame nb White (selected self) (legal_for_selected self)
             (game_over self) (result_text self))
    end
  else Ok self.

Definition restart (self : Game) : result Game :=
  let! b := initial_board in
  Ok (mkGame b White None [] false "").

(** The [in_check_sq] argument that [draw] computes and passes to the
    renderer: the king's square when the side to move is in check. *)
Definition draw_in_check_sq (self : Game) : result (option Square) :=
  let! chk := is_in_check (board self) (turn self) in
  if chk then find_king (board self) (turn self) else Ok None.

(** ** The store: boards as mutable list objects

    A Python board is a list object whose items are references to row list
    objects.  [Store] models that: [make_move] there allocates the clone and
    assigns into the clone's rows in place.  [Piece] objects are never
    assigned to after construction, so they are kept as values. *)
Module Store.

Inductive obj :=
  | Row (cells : list (option Piece))
  | Grid (rows : list nat).

Abbreviation heap := (gmap nat obj).

Definition alloc (h : heap) (o : obj) : heap * nat :=
  let l := fresh (dom h) in (<[l := o]> h, l).

Definition get_row (h : heap) (l : nat) : result (list (option Piece)) :=
  match h !! l with
  | Some (Row cells) => Ok cells
  | _ => Raise TypeError
  end.

Definition get_grid (h : heap) (l : nat) : result (list nat) :=
  match h !! l with
  | Some (Grid rows) => Ok rows
  | _ => Raise TypeError
  end.

(** The board value a reference stands for. *)
Fixpoint load_rows (h : heap) (ls : list nat) : result Board :=
  match ls with
  | [] => Ok []
  | l :: ls' =>
      let! row := get_row h l in
      let! rest := load_rows h ls' in
      Ok (row :: rest)
  end.

Definition load_board (h : heap) (b : nat) : result Board :=
  let! ls := get_grid h b in
  load_rows h ls.

Definition board_get (h : heap) (b : nat) (r c : Z)
  : result (option Piece) :=
  let! ls := get_grid h b in
  let! l := getitem ls r in
  let! row := get_row h l in
  getitem row c.

Definition board_set (h : heap) (b : nat) (r c : Z) (x : option Piece)
  : result heap :=
  let! ls := get_grid h b in
  let! l := getitem ls r in
  let! row := get_row h l in
  let! row' := setitem row c x in
  Ok (<[l := Row row']> h).

Fixpoint clone_rows (h : heap) (ls : list nat) : result (heap * list nat) :=
  match ls with
  | [] => Ok (h, [])
  | l :: ls' =>
      let! row := get_row h l in
      let hl := alloc h (Row (map clone_cell row)) in
      let! rest := clone_rows hl.1 ls' in
      Ok (rest.1, hl.2 :: rest.2)
  end.

Definition clone_board (h : heap) (b : nat) : result (heap * nat) :=
  let! ls := get_grid h b in
  let! cloned := clone_rows h ls in
  Ok (alloc cloned.1 (Grid cloned.2)).

Definition make_move (h : heap) (b : nat) (move : Move)
  : result (heap * nat) :=
  let '((r1, c1), (r2, c2)) := move in
  let! cloned := clone_board h b in
  let newb := cloned.2 in
  let! piece := board_get cloned.1 newb r1 c1 in
  let! h := board_set cloned.1 newb r1 c1 None in
  let! h := board_set h newb r2 c2 piece in
  match piece with
  | Some pc =>
      if kind_eqb (kind pc) Pawn then
        let! h :=
          (if color_eqb (color pc) White && (r2 =? 0)
           then board_set h newb r2 c2 (Some (mkPiece White Queen))
           else Ok h) in
        let! h :=
          (if color_eqb (color pc) Black && (r2 =? ROWS - 1)
           then board_set h newb r2 c2 (Some (mkPiece Black Queen))
           else Ok h) in
        Ok (h, newb)
      else Ok (h, newb)
  | None => Ok (h, newb)
  end.

End Store.

(** * Vocabulary of the statements *)

(** A board as [initial_board] and [make_move] produce them: eight rows of
    eight cells. *)
Definition wf_board (b : Board) : bool :=
  (length b =? 8)%nat && forallb (fun row => (length row =? 8)%nat) b.

(** The content of a square, [None] where the read would raise. *)
Definition cell (b : Board) (r c : Z) : option Piece :=
  match board_get b r c with
  | Ok q => q
  | Raise _ => None
  end.

(** What every generated move satisfies: both squares are on the board, the
    source holds a piece of the mover's colour and the destination does not. *)
Definition pseudo_ok (b : Board) (clr : Color) (m : Move) : Prop :=
  in_bounds m.1.1 m.1.2 = true /\
  in_bounds m.2.1 m.2.2 = true /\
  (exists p, board_get b m.1.1 m.1.2 = Ok (Some p) /\ color p = clr) /\
  (exists q, board_get b m.2.1 m.2.2 = Ok q /\
             forall p', q = Some p' -> color p' <> clr).

(** The invariant of the [moves] list the generators append to. *)
Definition all_ok (b : Board) (clr : Color) (moves : list Move) : Prop :=
  Forall (pseudo_ok b clr) moves.

(** An upper bound on the squares left on the board along one axis. *)
Definition steps_left (d x : Z) : Z := if 0 <? d then 8 - x else x + 1.

(** What [make_move] leaves on the destination square: the moved piece, or a
    queen of its colour when it is a pawn arriving on its last row. *)
Definition landed (piece : option Piece) (r2 : Z) : option Piece :=
  match piece with
  | Some pc =>
      if kind_eqb (kind pc) Pawn
         && ((color_eqb (color pc) White && (r2 =? 0))
             || (color_eqb (color pc) Black && (r2 =? ROWS - 1)))
      then Some (mkPiece (color pc) Queen)
      else Some pc
  | None => None
  end.

(** The test [generate_legal_moves] applies to each pseudo-legal move. *)
Definition keeps (b : Board) (clr : Color) (m : Move) : bool :=
  match make_move b m with
  | Ok nb =>
      match is_in_check nb clr with
      | Ok chk => negb chk
      | Raise _ => false
      end
  | Raise _ => false
  end.

(** The contribution of one square to [evaluate_material]. *)
Definition piece_score (q : option Piece) : Z :=
  match q with
  | Some p =>
      let v := PIECE_VALUES (kind p) in
      if color_eqb (color p) White then v else - v
  | None => 0
  end.

Definition sumZ (f : Z -> Z) (l : list Z) : Z :=
  foldr (fun x acc => f x + acc) 0 l.

(** The sum [evaluate_material] computes, for any assignment of squares. *)
Definition msum (f : Z -> Z -> option Piece) : Z :=
  sumZ (fun r => sumZ (fun c => piece_score (f r c)) (range COLS)) (range ROWS).

(** [move_score] as a number, for the moves on which it does not raise. *)
Definition score_of (b : Board) (clr : Color) (m : Move) : Z :=
  match move_score b clr m with
  | Ok s => s
  | Raise _ => 0
  end.

(** The loop invariant of [ai_choose_move] after the moves [pre]. *)
Definition ai_inv (b : Board) (clr : Color) (pre : list Move)
  (st : option Z * list Move) : Prop :=
  match st.1 with
  | None => pre = [] /\ st.2 = []
  | Some s =>
      st.2 = List.filter (fun m => score_of b clr m =? s) pre /\
      (forall m, m ∈ pre -> score_of b clr m <= s) /\
      (exists m, m ∈ pre /\ score_of b clr m = s)
  end.

(** [rowP h l row]: the reference [l] is a row object holding [row]. *)
Definition rowP (h : gmap nat Store.obj) (l : nat) (row : list (option Piece))
  : Prop :=
  h !! l = Some (Store.Row row).

(** The clone [nb] of a call that started in store [h0]: a grid of distinct
    rows, all allocated after [h0], holding the board value [B]; everything
    that [h0] held is still there. *)
Definition owned (h0 h : gmap nat Store.obj) (nb : nat) (ls : list nat)
  (B : Board) : Prop :=
  h !! nb = Some (Store.Grid ls) /\ NoDup ls /\ (nb ∉ ls) /\
  (forall l, l ∈ ls -> h0 !! l = None) /\ h0 !! nb = None /\ h0 ⊆ h /\
  Forall2 (rowP h) ls B.

(** ** Concrete positions *)

Definition start_position : Board :=
  Eval vm_compute in
    match initial_board with
    | Ok b => b
    | Raise _ => []
    end.

(** Cell contents used in the positions below. *)
Definition wP : option Piece := Some (mkPiece White Pawn).
Definition bN : option Piece := Some (mkPiece Black Knight).

(** A white pawn on (1, 0) that can take a black knight on (0, 1). *)
Definition capture_promotion_position : Board :=
  [ [None; bN; None; None; None; None; None; None];
    [wP; None; None; None; None; None; None; None];
    replicate 8 None; replicate 8 None; replicate 8 None;
    replicate 8 None; replicate 8 None; replicate 8 None ].

(** A white pawn standing on row 0. *)
Definition pawn_on_last_row : Board :=
  [ [None; None; None; wP; None; None; None; None];
    replicate 8 None; replicate 8 None; replicate 8 None;
    replicate 8 None; replicate 8 None; replicate 8 None; replicate 8 None ].

(** A white knight on (2, 2) that can take a black knight on (0, 1). *)
Definition knight_takes_knight : Board :=
  [ [None; bN; None; None; None; None; None; None];
    replicate 8 None;
    [None; None; Some (mkPiece White Knight); None; None; None; None; None];
    replicate 8 None; replicate 8 None; replicate 8 None;
    replicate 8 None; replicate 8 None ].

(** The start position as objects of a store: rows at 0..7, the grid at 8. *)
Definition start_store : gmap nat Store.obj :=
  <[8%nat := Store.Grid (seq 0 8)]>
    (list_to_map (zip (seq 0 8) (Store.Row <$> start_position))).

(** The number of squares of [b] holding a piece of colour [clr]. *)
Definition count_pieces (clr : Color) (b : Board) : nat :=
  length (List.filter
            (fun q => match q with
                      | Some p => color_eqb (color p) clr
                      | None => false
                      end) (concat b)).

(** The colour names [check_game_end] prints. *)
Definition winner_name (c : Color) : string :=
  match c with
  | White => "White"
  | Black => "Black"
  end.

(** ** Movement rules, as the generators implement them *)

(** The square [sq] does not hold a piece of colour [clr]. *)
Definition not_own (b : Board) (clr : Color) (sq : Square) : Prop :=
  forall q, cell b sq.1 sq.2 = Some q -> color q <> clr.

(** One step by [(dr, dc)] onto a square of the board not held by the
    mover's colour: the body of [knight_moves] and [king_moves]. *)
Definition step_rule (b : Board) (clr : Color) (r c dr dc : Z) (dst : Square)
  : Prop :=
  dst = (r + dr, c + dc) /\ in_bounds dst.1 dst.2 = true /\ not_own b clr dst.

(** [k] steps by [(dr, dc)]: every square passed on the way is on the board
    and empty, the last one is on the board and not held by the mover's
    colour: one direction of [slide_moves]. *)
Definition ray_rule (b : Board) (clr : Color) (r c dr dc : Z) (dst : Square)
  : Prop :=
  exists k, 0 < k /\ dst = (r + k * dr, c + k * dc) /\
    (forall j, 0 < j < k ->
       in_bounds (r + j * dr) (c + j * dc) = true /\
       cell b (r + j * dr) (c + j * dc) = None) /\
    in_bounds dst.1 dst.2 = true /\ not_own b clr dst.

(** The squares the loop of [slide_moves] still gives when it is about to
    test [(nr, nc)]: that square and the ones behind it, as far as the way
    is on the board and empty. *)
Definition ray_from (b : Board) (clr : Color) (nr nc dr dc : Z) (dst : Square)
  : Prop :=
  exists k, 0 <= k /\ dst = (nr + k * dr, nc + k * dc) /\
    (forall j, 0 <= j < k ->
       in_bounds (nr + j * dr) (nc + j * dc) = true /\
       cell b (nr + j * dr) (nc + j * dc) = None) /\
    in_bounds dst.1 dst.2 = true /\ not_own b clr dst.

(** The three kinds of move of [pawn_moves]: one step forward onto an empty
    square, two steps from the start row over two empty squares, one step
    diagonally onto a piece of the other colour. *)
Definition pawn_rule (b : Board) (p : Piece) (r c : Z) (dst : Square) : Prop :=
  let dir := if color_eqb (color p) White then -1 else 1 in
  let start_row := if color_eqb (color p) White then 6 else 1 in
  (dst = (r + dir, c) /\ in_bounds (r + dir) c = true /\
   cell b (r + dir) c = None) \/
  (dst = (r + 2 * dir, c) /\ r = start_row /\ in_bounds (r + dir) c = true /\
   cell b (r + dir) c = None /\ cell b (r + 2 * dir) c = None) \/
  (exists dc, (dc = -1 \/ dc = 1) /\ dst = (r + dir, c + dc) /\
     in_bounds (r + dir) (c + dc) = true /\
     exists q, cell b (r + dir) (c + dc) = Some q /\ color q <> color p).

(** The squares the piece [p] standing on [(r, c)] is given moves to. *)
Definition reach (b : Board) (p : Piece) (r c : Z) (dst : Square) : Prop :=
  match kind p with
  | Pawn => pawn_rule b p r c dst
  | Knight =>
      exists d, d ∈ jumps /\ step_rule b (color p) r c d.1 d.2 dst
  | King =>
      exists dr dc, dr ∈ [-1; 0; 1] /\ dc ∈ [-1; 0; 1] /\
        ~ (dr = 0 /\ dc = 0) /\ step_rule b (color p) r c dr dc dst
  | Bishop =>
      exists d, d ∈ bishop_deltas /\ ray_rule b (color p) r c d.1 d.2 dst
  | Rook =>
      exists d, d ∈ rook_deltas /\ ray_rule b (color p) r c d.1 d.2 dst
  | Queen =>
      exists d, d ∈ queen_deltas /\ ray_rule b (color p) r c d.1 d.2 dst
  end.

(** ** Material accounting of a move *)

(** The value of what stands on a square, 0 for an empty one. *)
Definition captured_value (q : option Piece) : Z :=
  match q with
  | Some p => PIECE_VALUES (kind p)
  | None => 0
  end.

(** The promotion test of [make_move]: a pawn arriving on row 0 (white) or
    row 7 (black). *)
Definition promotes (p : Piece) (r2 : Z) : bool :=
  kind_eqb (kind p) Pawn
  && ((color_eqb (color p) White && (r2 =? 0))
      || (color_eqb (color p) Black && (r2 =? ROWS - 1))).

(** [+1] for White, [-1] for Black, as in [ai_choose_move]. *)
Definition sign_of (clr : Color) : Z :=
  if color_eqb clr White then 1 else -1.

(** What the mover wins by a move: the value of what stands on the
    destination, plus 8 when the moved pawn is promoted (a queen for a
    pawn). *)
Definition gain (b : Board) (m : Move) : Z :=
  captured_value (cell b m.2.1 m.2.2)
  + match cell b m.1.1 m.1.2 with
    | Some p => if promotes p m.2.1 then 8 else 0
    | None => 0
    end.

(** ** The controller's invariant *)

(** The board is 8x8, and the destinations offered for the selected square
    are destinations of legal moves of the side to move from that square;
    without a selection none is offered. *)
Definition ctl_inv (g : Game) : Prop :=
  wf_board (board g) = true /\
  match selected g with
  | None => legal_for_selected g = []
  | Some sel =>
      forall d, d ∈ legal_for_selected g ->
        exists legal, generate_legal_moves (board g) (turn g) = Ok legal /\
                      (sel, d) ∈ legal
  end.

(** An index Python accepts for a list of eight items. *)
Definition py_ok (i : Z) : bool := (-8 <=? i) && (i <? 8).

(** * Verification *)

(** ** The error monad and loops *)

Lemma bind_Ok {A B} (m : result A) (k : A -> result B) (y : B) :
  bind m k = Ok y <-> exists x, m = Ok x /\ k x = Ok y.
Proof.
  destruct m as [x|e]; simpl; split.
  - eauto.
  - intros (x' & [= <-] & Hk); exact Hk.
  - discriminate.
  - intros (x' & [=] & _).
Qed.

(** Total correctness of a loop from an invariant that every iteration
    re-establishes without raising. *)
Lemma for_loop_inv {A S} (I : S -> Prop) (xs : list A)
    (body : A -> S -> result S) (s : S) :
  I s ->
  (forall x s, x ∈ xs -> I s -> exists s', body x s = Ok s' /\ I s') ->
  exists s', for_loop xs body s = Ok s' /\ I s'.
Proof.
  revert s; induction xs as [|x xs IH]; intros s Hs Hbody; simpl.
  - eauto.
  - destruct (Hbody x s) as (s1 & -> & Hs1); [left | done |]; simpl.
    apply IH; [done |].
    intros y t Hy; apply Hbody; by right.
Qed.

(** ** Indexing inside the bounds *)

Lemma getitem_in_range {A} (l : list A) (i : Z) :
  0 <= i < Z.of_nat (length l) ->
  exists x, l !! Z.to_nat i = Some x /\ getitem l i = Ok x.
Proof.
  intros Hi. unfold getitem, py_index.
  destruct (Z.leb_spec 0 i); [|lia].
  destruct (Z.ltb_spec i (Z.of_nat (length l))); [|lia]; simpl.
  destruct (l !! Z.to_nat i) as [x|] eqn:Hx; [eauto |].
  apply lookup_ge_None in Hx; lia.
Qed.

Lemma setitem_in_range {A} (l : list A) (i : Z) (x : A) :
  0 <= i < Z.of_nat (length l) ->
  setitem l i x = Ok (<[Z.to_nat i := x]> l).
Proof.
  intros Hi. unfold setitem, py_index.
  destruct (Z.leb_spec 0 i); [|lia].
  by destruct (Z.ltb_spec i (Z.of_nat (length l))); [|lia].
Qed.

Lemma in_bounds_spec (r c : Z) :
  in_bounds r c = true <-> 0 <= r < 8 /\ 0 <= c < 8.
Proof. unfold in_bounds, ROWS, COLS. lia. Qed.

(** ** Well-formed boards: eight rows of eight cells *)

Lemma wf_board_spec (b : Board) :
  wf_board b = true <->
  length b = 8%nat /\ forall i row, b !! i = Some row -> length row = 8%nat.
Proof.
  unfold wf_board. rewrite andb_true_iff, Nat.eqb_eq, forallb_forall.
  split; intros [Hl Hrows]; (split; [done|]).
  - intros i row Hi. apply Nat.eqb_eq, Hrows, list_elem_of_In.
    by eapply list_elem_of_lookup_2.
  - intros row Hin. apply list_elem_of_In, list_elem_of_lookup_1 in Hin as [i Hi].
    apply Nat.eqb_eq; eauto.
Qed.

Lemma board_get_lookup (b : Board) (r c : Z) :
  wf_board b = true -> in_bounds r c = true ->
  exists row q, b !! Z.to_nat r = Some row /\ row !! Z.to_nat c = Some q /\
                board_get b r c = Ok q.
Proof.
  intros [Hl Hrows]%wf_board_spec [Hr Hc]%in_bounds_spec.
  destruct (getitem_in_range b r) as (row & Hrow & Hg); [lia|].
  pose proof (Hrows _ _ Hrow) as Hlen.
  destruct (getitem_in_range row c) as (q & Hq & Hg'); [lia|].
  exists row, q. unfold board_get. rewrite Hg; simpl. by rewrite Hg'.
Qed.

Lemma board_get_cell (b : Board) (r c : Z) :
  wf_board b = true -> in_bounds r c = true ->
  board_get b r c = Ok (cell b r c).
Proof.
  intros Hwf Hin. destruct (board_get_lookup b r c Hwf Hin) as (row & q & _ & _ & Hg).
  unfold cell. by rewrite Hg.
Qed.

Lemma board_set_cell (b : Board) (r c : Z) (x : option Piece) :
  wf_board b = true -> in_bounds r c = true ->
  exists b', board_set b r c x = Ok b' /\ wf_board b' = true /\
    forall r' c', in_bounds r' c' = true ->
      cell b' r' c' = if decide ((r', c') = (r, c)) then x else cell b r' c'.
Proof.
  intros Hwf Hin.
  destruct (board_get_lookup b r c Hwf Hin) as (row & q & Hrow & Hq & _).
  pose proof Hwf as [Hl Hrows]%wf_board_spec.
  pose proof Hin as [Hr Hc]%in_bounds_spec.
  pose proof (Hrows _ _ Hrow) as Hlen.
  destruct (getitem_in_range b r) as (row0 & Hrow0 & Hg); [lia|].
  assert (row0 = row) as -> by congruence.
  set (row' := <[Z.to_nat c := x]> row).
  set (b' := <[Z.to_nat r := row']> b).
  assert (Hwf' : wf_board b' = true).
  { apply wf_board_spec. subst b' row'. split; [by rewrite length_insert|].
    intros i rw Hi. destruct (decide (i = Z.to_nat r)) as [->|Hne].
    - rewrite list_lookup_insert_eq in Hi by lia.
      injection Hi as <-. by rewrite length_insert.
    - rewrite list_lookup_insert_ne in Hi by done. eauto. }
  exists b'. split; [|split; [done|]].
  - unfold board_set. rewrite Hg; simpl.
    rewrite setitem_in_range by lia; simpl.
    by rewrite setitem_in_range by lia.
  - intros r' c' Hin'.
    destruct (board_get_lookup b' r' c' Hwf' Hin') as (rw' & q' & Hrw' & Hq' & Hg').
    destruct (board_get_lookup b r' c' Hwf Hin') as (rw & q0 & Hrw & Hq0 & Hg0).
    pose proof Hin' as [Hr' Hc']%in_bounds_spec.
    unfold cell. rewrite Hg', Hg0. subst b' row'.
    destruct (decide (Z.to_nat r' = Z.to_nat r)) as [Er|Er].
    + rewrite Er, list_lookup_insert_eq in Hrw' by lia. injection Hrw' as <-.
      rewrite Er in Hrw. assert (rw = row) as -> by congruence.
      destruct (decide (Z.to_nat c' = Z.to_nat c)) as [Ec|Ec].
      * rewrite Ec, list_lookup_insert_eq in Hq' by lia.
        rewrite decide_True by (f_equal; lia). congruence.
      * rewrite list_lookup_insert_ne in Hq' by done.
        rewrite decide_False by (intros [= ? ?]; lia). congruence.
    + rewrite list_lookup_insert_ne in Hrw' by done.
      rewrite decide_False by (intros [= ? ?]; lia). congruence.
Qed.

(** ** Pseudo-legal moves *)

Lemma color_eqb_false (a b : Color) : color_eqb a b = false <-> a <> b.
Proof. unfold color_eqb. apply bool_decide_eq_false. Qed.

Lemma color_eqb_true (a b : Color) : color_eqb a b = true <-> a = b.
Proof. unfold color_eqb. apply bool_decide_eq_true. Qed.

Section Generators.
Variables (b : Board) (clr : Color) (r c : Z) (p : Piece).
Hypothesis Hwf : wf_board b = true.
Hypothesis Hrc : in_bounds r c = true.
Hypothesis Hp : board_get b r c = Ok (Some p).
Hypothesis Hclr : color p = clr.

Lemma append_ok (moves : list Move) (nr nc : Z) :
  all_ok b clr moves -> in_bounds nr nc = true ->
  (forall q, cell b nr nc = Some q -> color q <> color p) ->
  all_ok b clr (moves ++ [((r, c), (nr, nc))]).
Proof using Hwf Hrc Hp Hclr.
  intros Hm Hin Hq. apply Forall_app; split; [done|].
  apply Forall_singleton. unfold pseudo_ok; simpl.
  repeat split; [done | done | by exists p |].
  exists (cell b nr nc). split; [by apply board_get_cell|].
  intros p' Hp'. rewrite <- Hclr. by apply Hq.
Qed.

Lemma step_move_ok (dr dc : Z) (moves : list Move) :
  all_ok b clr moves ->
  exists moves', step_move b r c p dr dc moves = Ok moves' /\ all_ok b clr moves'.
Proof using Hwf Hrc Hp Hclr.
  intros Hm. unfold step_move.
  destruct (in_bounds (r + dr) (c + dc)) eqn:Hin; simpl; [|eauto].
  rewrite board_get_cell by done; simpl.
  destruct (cell b (r + dr) (c + dc)) as [q|] eqn:Hq.
  - destruct (color_eqb (color q) (color p)) eqn:Hc; simpl; [eauto|].
    eexists; split; [done|]. apply append_ok; [done..|].
    intros q' Hq'. rewrite Hq in Hq'. injection Hq' as <-.
    by apply color_eqb_false.
  - eexists; split; [done|]. apply append_ok; [done..|]. by rewrite Hq.
Qed.

Lemma knight_moves_ok (moves : list Move) :
  all_ok b clr moves ->
  exists moves', knight_moves b r c p moves = Ok moves' /\ all_ok b clr moves'.
Proof using Hwf Hrc Hp Hclr.
  intros Hm. apply for_loop_inv; [done|].
  intros [dr dc] s _ Hs. by apply step_move_ok.
Qed.

Lemma king_moves_ok (moves : list Move) :
  all_ok b clr moves ->
  exists moves', king_moves b r c p moves = Ok moves' /\ all_ok b clr moves'.
Proof using Hwf Hrc Hp Hclr.
  intros Hm. apply for_loop_inv; [done|].
  intros dr s _ Hs. apply for_loop_inv; [done|].
  intros dc s' _ Hs'.
  destruct ((dr =? 0) && (dc =? 0)); [eauto | by apply step_move_ok].
Qed.

Lemma pawn_moves_ok (moves : list Move) :
  all_ok b clr moves ->
  exists moves', pawn_moves b r c p moves = Ok moves' /\ all_ok b clr moves'.
Proof using Hwf Hrc Hp Hclr.
  intros Hm. unfold pawn_moves.
  set (dir := if color_eqb (color p) White then -1 else 1).
  set (start_row := if color_eqb (color p) White then 6 else 1).
  assert (Hfwd : exists m1,
    (if in_bounds (r + dir) c then
       let! q := board_get b (r + dir) c in
       match q with
       | None =>
           if r =? start_row then
             let! q2 := board_get b (r + 2 * dir) c in
             match q2 with
             | None => Ok ((moves ++ [((r, c), (r + dir, c))])
                             ++ [((r, c), (r + 2 * dir, c))])
             | Some _ => Ok (moves ++ [((r, c), (r + dir, c))])
             end
           else Ok (moves ++ [((r, c), (r + dir, c))])
       | Some _ => Ok moves
       end
     else Ok moves) = Ok m1 /\ all_ok b clr m1).
  { destruct (in_bounds (r + dir) c) eqn:Hin; [|eauto].
    rewrite board_get_cell by done; simpl.
    destruct (cell b (r + dir) c) as [q|] eqn:Hq; [eauto|].
    assert (all_ok b clr (moves ++ [((r, c), (r + dir, c))])) as Hm1.
    { apply append_ok; [done..|]. by rewrite Hq. }
    destruct (Z.eqb_spec r start_row) as [Hstart|]; [|eauto].
    assert (in_bounds (r + 2 * dir) c = true) as Hin2.
    { apply in_bounds_spec in Hrc. apply in_bounds_spec.
      subst dir start_row. destruct (color_eqb (color p) White); lia. }
    rewrite board_get_cell by done; simpl.
    destruct (cell b (r + 2 * dir) c) as [q2|] eqn:Hq2; [eauto|].
    eexists; split; [done|]. apply append_ok; [done..|]. by rewrite Hq2. }
  destruct Hfwd as (m1 & -> & Hm1); cbn [bind].
  apply for_loop_inv; [done|].
  intros dc s _ Hs.
  destruct (in_bounds (r + dir) (c + dc)) eqn:Hin; [|eauto].
  rewrite board_get_cell by done; simpl.
  destruct (cell b (r + dir) (c + dc)) as [q|] eqn:Hq; [|eauto].
  destruct (color_eqb (color q) (color p)) eqn:Hc; simpl; [eauto|].
  eexists; split; [done|]. apply append_ok; [done..|].
  intros q' Hq'. rewrite Hq in Hq'. injection Hq' as <-.
  by apply color_eqb_false.
Qed.

Lemma slide_ray_ok (dr dc : Z) (fuel : nat) :
  forall (nr nc : Z) (moves : list Move),
  (0 < fuel)%nat ->
  (in_bounds nr nc = true ->
   (dr <> 0 /\ steps_left dr nr < Z.of_nat fuel) \/
   (dc <> 0 /\ steps_left dc nc < Z.of_nat fuel)) ->
  all_ok b clr moves ->
  exists moves', slide_ray fuel b r c p dr dc nr nc moves = Ok moves' /\
           all_ok b clr moves'.
Proof using Hwf Hrc Hp Hclr.
  induction fuel as [|fuel IH]; intros nr nc moves Hpos Hfuel Hm; [lia|].
  simpl. destruct (in_bounds nr nc) eqn:Hin; [|eauto].
  rewrite board_get_cell by done; simpl.
  destruct (cell b nr nc) as [q|] eqn:Hq.
  - destruct (color_eqb (color q) (color p)) eqn:Hc; simpl; [eauto|].
    eexists; split; [done|]. apply append_ok; [done..|].
    intros q' Hq'. rewrite Hq in Hq'. injection Hq' as <-.
    by apply color_eqb_false.
  - specialize (Hfuel eq_refl). apply in_bounds_spec in Hin.
    unfold steps_left in Hfuel.
    apply IH.
    + destruct (0 <? dr) eqn:?, (0 <? dc) eqn:?; lia.
    + intros Hin'%in_bounds_spec. unfold steps_left.
      destruct (0 <? dr) eqn:?, (0 <? dc) eqn:?; lia.
    + apply append_ok; [done | by apply in_bounds_spec |]. by rewrite Hq.
Qed.

Lemma slide_moves_ok (deltas : list (Z * Z)) (moves : list Move) :
  Forall (fun d => d.1 <> 0 \/ d.2 <> 0) deltas ->
  all_ok b clr moves ->
  exists moves', slide_moves b r c p moves deltas = Ok moves' /\ all_ok b clr moves'.
Proof using Hwf Hrc Hp Hclr.
  intros Hd Hm. apply for_loop_inv; [done|].
  intros [dr dc] s Hin Hs.
  rewrite Forall_forall in Hd. specialize (Hd _ Hin); simpl in Hd.
  apply slide_ray_ok; [unfold ray_fuel; lia | | done].
  intros Hb%in_bounds_spec. unfold steps_left, ray_fuel.
  destruct (0 <? dr) eqn:?, (0 <? dc) eqn:?; lia.
Qed.

Lemma piece_moves_ok (moves : list Move) :
  all_ok b clr moves ->
  exists moves',
    match kind p with
    | Pawn => pawn_moves b r c p moves
    | Knight => knight_moves b r c p moves
    | Bishop => bishop_moves b r c p moves
    | Rook => rook_moves b r c p moves
    | Queen => queen_moves b r c p moves
    | King => king_moves b r c p moves
    end = Ok moves' /\ all_ok b clr moves'.
Proof using Hwf Hrc Hp Hclr.
  intros Hm. destruct (kind p).
  - by apply king_moves_ok.
  - apply slide_moves_ok; [|done]. repeat constructor; simpl; lia.
  - apply slide_moves_ok; [|done]. repeat constructor; simpl; lia.
  - apply slide_moves_ok; [|done]. repeat constructor; simpl; lia.
  - by apply knight_moves_ok.
  - by apply pawn_moves_ok.
Qed.
End Generators.

Lemma range_in_bounds (r c : Z) :
  r ∈ range ROWS -> c ∈ range COLS -> in_bounds r c = true.
Proof.
  unfold range, ROWS, COLS. rewrite !elem_of_seqZ, in_bounds_spec. lia.
Qed.

Lemma generate_pseudo_legal_moves_ok (b : Board) (clr : Color) :
  wf_board b = true ->
  exists moves, generate_pseudo_legal_moves b clr = Ok moves /\
                Forall (pseudo_ok b clr) moves.
Proof.
  intros Hwf. apply for_loop_inv; [constructor|].
  intros r s Hr Hs. apply for_loop_inv; [done|].
  intros c s' Hc Hs'.
  pose proof (range_in_bounds r c Hr Hc) as Hin.
  pose proof (board_get_cell b r c Hwf Hin) as Hg. rewrite Hg; simpl.
  destruct (cell b r c) as [p|] eqn:Hp; [|eauto].
  destruct (color_eqb (color p) clr) eqn:Hcol; simpl; [|eauto].
  apply color_eqb_true in Hcol.
  by apply (piece_moves_ok b clr r c p).
Qed.

(** ** Applying a move *)

Lemma clone_board_id (b : Board) : clone_board b = b.
Proof.
  unfold clone_board. rewrite <- (map_id b) at 2.
  apply map_ext; intros row. rewrite <- (map_id row) at 2.
  apply map_ext; intros [[]|]; done.
Qed.

Lemma make_move_cells (b : Board) (r1 c1 r2 c2 : Z) :
  wf_board b = true -> in_bounds r1 c1 = true -> in_bounds r2 c2 = true ->
  exists nb, make_move b ((r1, c1), (r2, c2)) = Ok nb /\ wf_board nb = true /\
    forall r c, in_bounds r c = true ->
      cell nb r c =
        if decide ((r, c) = (r2, c2)) then landed (cell b r1 c1) r2
        else if decide ((r, c) = (r1, c1)) then None
        else cell b r c.
Proof.
  intros Hwf H1 H2. unfold make_move. rewrite clone_board_id.
  rewrite board_get_cell by done; cbn [bind].
  destruct (board_set_cell b r1 c1 None Hwf H1) as (b1 & -> & Hwf1 & Hb1).
  cbn [bind].
  destruct (board_set_cell b1 r2 c2 (cell b r1 c1) Hwf1 H2)
    as (b2 & -> & Hwf2 & Hb2).
  cbn [bind].
  assert (Hcells2 : forall r c, in_bounds r c = true ->
            cell b2 r c = if decide ((r, c) = (r2, c2)) then cell b r1 c1
                          else if decide ((r, c) = (r1, c1)) then None
                          else cell b r c).
  { intros r c Hin. rewrite Hb2 by done. case_decide; [done|]. by apply Hb1. }
  destruct (cell b r1 c1) as [[col k]|] eqn:Hpiece; simpl;
    [|exists b2; split; [done|]; split; [done|]; exact Hcells2].
  destruct (kind_eqb k Pawn) eqn:Hk; simpl;
    [|exists b2; split; [done|]; split; [done|]; exact Hcells2].
  destruct (board_set_cell b2 r2 c2 (Some (mkPiece White Queen)) Hwf2 H2)
    as (bw & Hsetw & Hwfw & Hbw).
  destruct (board_set_cell b2 r2 c2 (Some (mkPiece Black Queen)) Hwf2 H2)
    as (bb & Hsetb & Hwfb & Hbb).
  unfold ROWS.
  destruct col; simpl; destruct (r2 =? 0) eqn:E0, (r2 =? 8 - 1) eqn:E7;
    simpl; try (apply Z.eqb_eq in E0; apply Z.eqb_eq in E7; lia);
    rewrite ?Hsetw, ?Hsetb; cbn [bind];
    first [ exists b2; split; [done|]; split; [done|]; exact Hcells2
          | eexists; split; [done|]; split; [done|];
            intros r c Hin; rewrite ?Hbw, ?Hbb by done;
            case_decide; [done|]; rewrite Hcells2 by done;
            by rewrite decide_False by done ].
Qed.

Lemma pseudo_ok_make_move (b : Board) (clr : Color) (m : Move) :
  wf_board b = true -> pseudo_ok b clr m ->
  exists nb, make_move b m = Ok nb /\ wf_board nb = true.
Proof.
  intros Hwf (H1 & H2 & _). destruct m as [[r1 c1] [r2 c2]]; simpl in *.
  destruct (make_move_cells b r1 c1 r2 c2 Hwf H1 H2) as (nb & ? & ? & _).
  eauto.
Qed.

(** ** Check detection never raises on a well-formed board *)

Lemma find_king_cols_total (b : Board) (clr : Color) (r : Z) (cs : list Z) :
  wf_board b = true -> (forall c, c ∈ cs -> in_bounds r c = true) ->
  exists k, find_king_cols b clr r cs = Ok k.
Proof.
  intros Hwf. induction cs as [|c cs IH]; intros Hcs; simpl; [eauto|].
  rewrite board_get_cell by (try apply Hcs; by try left); cbn [bind].
  destruct (is_king_of clr (cell b r c)); [eauto|].
  apply IH. intros c' Hc'. apply Hcs. by right.
Qed.

Lemma find_king_rows_total (b : Board) (clr : Color) (rs : list Z) :
  wf_board b = true -> (forall r, r ∈ rs -> r ∈ range ROWS) ->
  exists k, find_king_rows b clr rs = Ok k.
Proof.
  intros Hwf. induction rs as [|r rs IH]; intros Hrs;
    cbn [find_king_rows]; [eauto|].
  destruct (find_king_cols_total b clr r (range COLS) Hwf) as (k & ->).
  { intros c Hc. apply range_in_bounds; [|done]. apply Hrs. by left. }
  cbn [bind]. destruct k; [eauto|].
  apply IH. intros r' Hr'. apply Hrs. by right.
Qed.

Lemma find_king_total (b : Board) (clr : Color) :
  wf_board b = true -> exists k, find_king b clr = Ok k.
Proof. intros Hwf. by apply find_king_rows_total. Qed.

Lemma is_in_check_total (b : Board) (clr : Color) :
  wf_board b = true -> exists v, is_in_check b clr = Ok v.
Proof.
  intros Hwf. unfold is_in_check.
  destruct (find_king_total b clr Hwf) as (k & ->); cbn [bind].
  destruct k as [sq|]; [|eauto].
  unfold is_square_attacked.
  destruct (generate_pseudo_legal_moves_ok b (opponent clr) Hwf) as (ms & -> & _).
  cbn [bind]. eauto.
Qed.

(** ** The legality filter *)

Lemma legal_loop_filter (b : Board) (clr : Color) (ms acc : list Move) :
  Forall (fun m => exists nb v, make_move b m = Ok nb /\
                                is_in_check nb clr = Ok v) ms ->
  for_loop ms (fun m legal =>
    let! nb := make_move b m in
    let! chk := is_in_check nb clr in
    if negb chk then Ok (legal ++ [m]) else Ok legal) acc
  = Ok (acc ++ List.filter (keeps b clr) ms).
Proof.
  revert acc; induction ms as [|m ms IH]; intros acc Hms; simpl.
  - by rewrite app_nil_r.
  - apply Forall_cons in Hms as [(nb & v & Hmv & Hchk) Hms].
    rewrite Hmv; cbn [bind]. rewrite Hchk; cbn [bind].
    assert (keeps b clr m = negb v) as -> by (unfold keeps; by rewrite Hmv, Hchk).
    destruct v; simpl.
    + by apply IH.
    + rewrite IH by done. by rewrite <- app_assoc.
Qed.

Lemma generate_legal_moves_filter (b : Board) (clr : Color) :
  wf_board b = true ->
  exists pseudo, generate_pseudo_legal_moves b clr = Ok pseudo /\
    Forall (pseudo_ok b clr) pseudo /\
    generate_legal_moves b clr
      = Ok (List.filter (keeps b clr) pseudo).
Proof.
  intros Hwf.
  destruct (generate_pseudo_legal_moves_ok b clr Hwf) as (pseudo & Hgen & Hok).
  exists pseudo. split; [done|]. split; [done|].
  unfold generate_legal_moves. rewrite Hgen; cbn [bind].
  apply (legal_loop_filter b clr pseudo []).
  eapply Forall_impl; [exact Hok|]. intros m Hm.
  destruct (pseudo_ok_make_move b clr m Hwf Hm) as (nb & Hnb & Hwfnb).
  destruct (is_in_check_total nb clr Hwfnb) as (v & Hv). eauto.
Qed.

Lemma keeps_true (b : Board) (clr : Color) (m : Move) :
  keeps b clr m = true <->
  exists nb, make_move b m = Ok nb /\ is_in_check nb clr = Ok false.
Proof.
  unfold keeps. split.
  - destruct (make_move b m) as [nb|]; [|done].
    destruct (is_in_check nb clr) as [[]|] eqn:Hchk; [done| |done]. eauto.
  - by intros (nb & -> & ->).
Qed.

(** ** Material evaluation as a sum over the 64 squares *)

Lemma for_loop_sum (xs : list Z) (f : Z -> Z) (body : Z -> Z -> result Z) (s : Z) :
  (forall x s, x ∈ xs -> body x s = Ok (s + f x)) ->
  for_loop xs body s = Ok (s + sumZ f xs).
Proof.
  revert s; induction xs as [|x xs IH]; intros s Hbody; simpl.
  - f_equal; lia.
  - rewrite Hbody by left; cbn [bind]. rewrite IH.
    + f_equal; lia.
    + intros y t Hy. apply Hbody. by right.
Qed.

Lemma evaluate_material_sum (b : Board) :
  wf_board b = true -> evaluate_material b = Ok (msum (cell b)).
Proof.
  intros Hwf. unfold evaluate_material, msum.
  rewrite (for_loop_sum _
             (fun r => sumZ (fun c => piece_score (cell b r c)) (range COLS)));
    [done|].
  intros r s Hr. apply for_loop_sum. intros c s' Hc.
  rewrite board_get_cell by (by try apply range_in_bounds); cbn [bind].
  destruct (cell b r c); simpl; f_equal; lia.
Qed.

Lemma sumZ_ext (f g : Z -> Z) (l : list Z) :
  (forall y, y ∈ l -> g y = f y) -> sumZ g l = sumZ f l.
Proof.
  induction l as [|y l IH]; intros Hfg; simpl; [done|].
  rewrite Hfg by left. rewrite IH; [done|].
  intros z Hz. apply Hfg. by right.
Qed.

Lemma sumZ_update (f g : Z -> Z) (l : list Z) (x : Z) :
  NoDup l -> x ∈ l -> (forall y, y ∈ l -> y <> x -> g y = f y) ->
  sumZ g l = sumZ f l - f x + g x.
Proof.
  induction l as [|y l IH]; intros Hnd Hx Hfg; [by apply elem_of_nil in Hx|].
  apply NoDup_cons in Hnd as [Hy Hnd]. simpl.
  apply elem_of_cons in Hx as [->|Hx].
  - rewrite (sumZ_ext f g l); [lia|].
    intros z Hz. apply Hfg; [by right|]. by intros ->.
  - rewrite IH; [|done|done|].
    + rewrite (Hfg y); [lia | by left | by intros ->].
    + intros z Hz. apply Hfg. by right.
Qed.

Lemma NoDup_range (n : Z) : NoDup (range n).
Proof. apply NoDup_seqZ. Qed.

Lemma msum_update (f g : Z -> Z -> option Piece) (r0 c0 : Z) :
  in_bounds r0 c0 = true ->
  (forall r c, in_bounds r c = true -> (r, c) <> (r0, c0) -> g r c = f r c) ->
  msum g = msum f - piece_score (f r0 c0) + piece_score (g r0 c0).
Proof.
  intros Hin Hfg. pose proof Hin as [Hr0 Hc0]%in_bounds_spec.
  assert (Hr : r0 ∈ range ROWS) by (apply elem_of_seqZ; unfold ROWS; lia).
  assert (Hc : c0 ∈ range COLS) by (apply elem_of_seqZ; unfold COLS; lia).
  unfold msum.
  rewrite (sumZ_update
             (fun r => sumZ (fun c => piece_score (f r c)) (range COLS)) _ _ r0
             (NoDup_range _) Hr).
  - rewrite (sumZ_update (fun c => piece_score (f r0 c))
               (fun c => piece_score (g r0 c)) _ c0 (NoDup_range _) Hc);
      [lia|].
    intros c Hcin Hne. rewrite Hfg; [done | by apply range_in_bounds |].
    intros [= ?]; done.
  - intros r Hrin Hne. apply sumZ_ext. intros c Hcin.
    rewrite Hfg; [done | by apply range_in_bounds |].
    intros [= ? ?]; done.
Qed.

(** The material balance after a move between two different squares. *)
Lemma make_move_material (b : Board) (r1 c1 r2 c2 : Z) :
  wf_board b = true -> in_bounds r1 c1 = true -> in_bounds r2 c2 = true ->
  (r1, c1) <> (r2, c2) ->
  exists nb, make_move b ((r1, c1), (r2, c2)) = Ok nb /\
    evaluate_material nb =
      Ok (msum (cell b) - piece_score (cell b r1 c1) - piece_score (cell b r2 c2)
          + piece_score (landed (cell b r1 c1) r2)).
Proof.
  intros Hwf H1 H2 Hne.
  destruct (make_move_cells b r1 c1 r2 c2 Hwf H1 H2) as (nb & Hmv & Hwfnb & Hcells).
  exists nb. split; [done|].
  rewrite evaluate_material_sum by done. f_equal.
  set (h := fun r c => if decide ((r, c) = (r1, c1)) then None else cell b r c).
  rewrite (msum_update h (cell nb) r2 c2 H2).
  - rewrite (msum_update (cell b) h r1 c1 H1).
    + rewrite Hcells by done. rewrite decide_True by done.
      unfold h. rewrite decide_True by done.
      rewrite decide_False by (by intros [= -> ->]). simpl. lia.
    + intros r c Hin Hrc. unfold h. by rewrite decide_False.
  - intros r c Hin Hrc. rewrite Hcells by done.
    rewrite decide_False by done. done.
Qed.

(** ** The move selector *)

Lemma filter_none {A} (f : A -> bool) (l : list A) :
  (forall x, x ∈ l -> f x = false) -> List.filter f l = [].
Proof.
  induction l as [|x l IH]; intros Hf; simpl; [done|].
  rewrite Hf by left. apply IH. intros y Hy. apply Hf. by right.
Qed.

Lemma elem_of_List_filter {A} (f : A -> bool) (l : list A) (x : A) :
  x ∈ List.filter f l <-> x ∈ l /\ f x = true.
Proof. rewrite !list_elem_of_In. apply filter_In. Qed.

Lemma ai_loop_spec (b : Board) (clr : Color) (xs : list Move) :
  forall pre st,
  ai_inv b clr pre st ->
  Forall (fun m => exists s, move_score b clr m = Ok s) xs ->
  exists st', for_loop xs (ai_step b clr) st = Ok st' /\
              ai_inv b clr (pre ++ xs) st'.
Proof.
  induction xs as [|m xs IH]; intros pre st Hinv Hxs.
  - rewrite app_nil_r. simpl. eauto.
  - apply Forall_cons in Hxs as [(s & Hs) Hxs].
    assert (Hsc : score_of b clr m = s) by (unfold score_of; by rewrite Hs).
    assert (Hstep : exists st1, ai_step b clr m st = Ok st1 /\
                                ai_inv b clr (pre ++ [m]) st1).
    { destruct st as [[bs|] bm]; unfold ai_step; rewrite Hs; cbn [bind];
        unfold ai_inv in Hinv; simpl in Hinv.
      - destruct Hinv as (Hbm & Hmax & (m0 & Hm0 & Hm0s)).
        destruct (Z.ltb_spec bs s) as [Hlt|Hge].
        + eexists; split; [done|]. unfold ai_inv; simpl.
          rewrite List.filter_app; simpl. rewrite Hsc, Z.eqb_refl.
          rewrite filter_none.
          * split; [done|]. split.
            -- intros m' [Hm' | ->%list_elem_of_singleton]%elem_of_app; [|lia].
               specialize (Hmax _ Hm'). lia.
            -- exists m. split; [|done]. apply elem_of_app. right. by left.
          * intros m' Hm'. specialize (Hmax _ Hm'). lia.
        + destruct (Z.eqb_spec s bs) as [Heq|Hne].
          * eexists; split; [done|]. unfold ai_inv; simpl.
            rewrite List.filter_app; simpl.
            rewrite Hsc, Heq, Z.eqb_refl, <- Hbm. split; [done|]. split.
            -- intros m' [Hm' | ->%list_elem_of_singleton]%elem_of_app; [|lia].
               by apply Hmax.
            -- exists m0. split; [|done]. apply elem_of_app. by left.
          * eexists; split; [done|]. unfold ai_inv; simpl.
            rewrite List.filter_app; simpl. rewrite Hsc.
            destruct (Z.eqb_spec s bs); [done|].
            rewrite app_nil_r. split; [done|]. split.
            -- intros m' [Hm' | ->%list_elem_of_singleton]%elem_of_app; [|lia].
               by apply Hmax.
            -- exists m0. split; [|done]. apply elem_of_app. by left.
      - destruct Hinv as [-> ->].
        eexists; split; [done|]. unfold ai_inv; simpl.
        rewrite Hsc, Z.eqb_refl. split; [done|]. split.
        + intros m' ->%list_elem_of_singleton. lia.
        + exists m. split; [by left | done]. }
    destruct Hstep as (st1 & Hst1 & Hinv1).
    cbn [for_loop]. rewrite Hst1; cbn [bind].
    destruct (IH (pre ++ [m]) st1 Hinv1 Hxs) as (st' & Hrun & Hinv').
    exists st'. split; [done|]. by rewrite <- app_assoc in Hinv'.
Qed.

Lemma random_choice_index {A} (rnd : nat) (l : list A) :
  l <> [] ->
  exists x, l !! (rnd mod length l)%nat = Some x /\ random_choice rnd l = Ok x.
Proof.
  intros Hl. destruct l as [|a l]; [done|]. unfold random_choice.
  set (l' := a :: l).
  assert (rnd mod length l' < length l')%nat
    by (apply Nat.mod_upper_bound; subst l'; simpl; lia).
  destruct (getitem_in_range l' (Z.of_nat (rnd mod length l')))
    as (x & Hx & Hg); [lia|].
  rewrite Nat2Z.id in Hx. eauto.
Qed.

Lemma move_score_total (b : Board) (clr clr' : Color) (m : Move) :
  wf_board b = true -> pseudo_ok b clr' m ->
  exists s, move_score b clr m = Ok s.
Proof.
  intros Hwf Hm. unfold move_score.
  destruct (pseudo_ok_make_move b clr' m Hwf Hm) as (nb & -> & Hwfnb).
  cbn [bind]. rewrite evaluate_material_sum by done. cbn [bind]. eauto.
Qed.

Lemma ai_choose_move_spec (b : Board) (clr : Color) :
  wf_board b = true ->
  exists legal, generate_legal_moves b clr = Ok legal /\
    match legal with
    | [] => forall rnd, ai_choose_move rnd b clr = Ok None
    | _ :: _ =>
        exists s best,
          best = List.filter (fun m => score_of b clr m =? s) legal /\
          best <> [] /\
          (forall m, m ∈ legal -> move_score b clr m = Ok (score_of b clr m) /\
                                  score_of b clr m <= s) /\
          forall rnd, ai_choose_move rnd b clr =
                      let! m := random_choice rnd best in Ok (Some m)
    end.
Proof.
  intros Hwf.
  destruct (generate_legal_moves_filter b clr Hwf) as (pseudo & _ & Hok & Hgen).
  set (legal := List.filter (keeps b clr) pseudo) in *.
  exists legal. split; [done|].
  assert (Hsc : Forall (fun m => exists s, move_score b clr m = Ok s) legal).
  { apply Forall_forall. intros m [Hm _]%elem_of_List_filter.
    rewrite Forall_forall in Hok. by eapply move_score_total, Hok. }
  destruct (ai_loop_spec b clr legal [] (None, [])) as (st & Hrun & Hinv);
    [by split | done |].
  rewrite app_nil_l in Hinv. unfold ai_choose_move. rewrite Hgen; cbn [bind].
  destruct legal as [|m0 legal'] eqn:Hlegal; [done|].
  rewrite Hrun; cbn [bind].
  destruct st as [[s|] best]; unfold ai_inv in Hinv; cbn [fst snd] in Hinv;
    [|by destruct Hinv].
  destruct Hinv as (Hbest & Hmax & (m1 & Hm1 & Hm1s)).
  assert (Hne : best <> []).
  { intros Hnil. assert (m1 ∈ best) as Hin;
      [|rewrite Hnil in Hin; by apply elem_of_nil in Hin].
    rewrite Hbest. apply elem_of_List_filter. split; [done|]. by apply Z.eqb_eq. }
  exists s, best. split; [done|]. split; [done|]. split.
  - intros m Hm. split; [|by apply Hmax].
    rewrite Forall_forall in Hsc. destruct (Hsc m Hm) as (s' & Hs').
    unfold score_of. by rewrite Hs'.
  - intros rnd. cbn [snd]. by destruct best.
Qed.

(** ** The store model refines the functional one *)

Lemma get_row_Ok (h : gmap nat Store.obj) (l : nat) (row : list (option Piece)) :
  Store.get_row h l = Ok row <-> rowP h l row.
Proof.
  unfold Store.get_row, rowP. destruct (h !! l) as [[cells|rows]|]; split;
    intros Heq; try discriminate; by injection Heq as ->.
Qed.

Lemma get_grid_Ok (h : gmap nat Store.obj) (b : nat) (ls : list nat) :
  Store.get_grid h b = Ok ls <-> h !! b = Some (Store.Grid ls).
Proof.
  unfold Store.get_grid. destruct (h !! b) as [[cells|rows]|]; split;
    intros Heq; try discriminate; by injection Heq as ->.
Qed.

Lemma load_rows_Forall2 (h : gmap nat Store.obj) (ls : list nat) (B : Board) :
  Store.load_rows h ls = Ok B <-> Forall2 (rowP h) ls B.
Proof.
  revert B; induction ls as [|l ls IH]; intros B; simpl.
  - split; [intros [= <-]; constructor | by intros ->%Forall2_nil_inv_l].
  - split.
    + intros (row & Hrow%get_row_Ok & (rest & Hrest%IH & [= <-])%bind_Ok)%bind_Ok.
      by constructor.
    + intros (row & rest & Hrow%get_row_Ok & Hrest%IH & ->)%Forall2_cons_inv_l.
      by rewrite Hrow, Hrest.
Qed.

Lemma rowP_weaken (h h' : gmap nat Store.obj) (ls : list nat) (B : Board) :
  h ⊆ h' -> Forall2 (rowP h) ls B -> Forall2 (rowP h') ls B.
Proof.
  intros Hsub HF. eapply Forall2_impl; [exact HF|].
  intros l row Hl. by eapply lookup_weaken.
Qed.

Lemma load_board_weaken (h h' : gmap nat Store.obj) (b : nat) (B : Board) :
  h ⊆ h' -> Store.load_board h b = Ok B -> Store.load_board h' b = Ok B.
Proof.
  intros Hsub (ls & Hls%get_grid_Ok & Hrows%load_rows_Forall2)%bind_Ok.
  unfold Store.load_board.
  pose proof (lookup_weaken _ _ _ _ Hls Hsub) as Hg%get_grid_Ok. rewrite Hg.
  cbn [bind]. by eapply load_rows_Forall2, rowP_weaken.
Qed.

Lemma alloc_fresh (h : gmap nat Store.obj) (o : Store.obj) :
  h !! (Store.alloc h o).2 = None /\
  (Store.alloc h o).1 !! (Store.alloc h o).2 = Some o /\
  h ⊆ (Store.alloc h o).1.
Proof.
  unfold Store.alloc; simpl.
  assert (h !! fresh (dom h) = None) as Hf by apply not_elem_of_dom, is_fresh.
  split; [done|]. split; [by rewrite lookup_insert_eq | by apply insert_subseteq].
Qed.

Lemma clone_rows_spec (ls : list nat) :
  forall (h : gmap nat Store.obj) (B : Board),
  Forall2 (rowP h) ls B ->
  exists h' ls', Store.clone_rows h ls = Ok (h', ls') /\ h ⊆ h' /\ NoDup ls' /\
    (forall l, l ∈ ls' -> h !! l = None) /\
    Forall2 (rowP h') ls' (clone_board B).
Proof.
  induction ls as [|l ls IH]; intros h B HF.
  - apply Forall2_nil_inv_l in HF as ->. exists h, []. simpl.
    repeat split; [done | constructor | | constructor].
    intros l Hl. by apply elem_of_nil in Hl.
  - apply Forall2_cons_inv_l in HF as (row & B' & Hrow & HB' & ->).
    cbn [Store.clone_rows]. apply get_row_Ok in Hrow as Hget. rewrite Hget.
    cbn [bind].
    set (o := Store.Row (map clone_cell row)).
    destruct (alloc_fresh h o) as (Hfresh & Hnew & Hsub).
    set (h1 := (Store.alloc h o).1) in *. set (l1 := (Store.alloc h o).2) in *.
    destruct (IH h1 B' (rowP_weaken _ _ _ _ Hsub HB'))
      as (h2 & ls2 & -> & Hsub2 & Hnd & Hnone & HF2).
    cbn [bind fst snd]. exists h2, (l1 :: ls2).
    split; [done|]. split; [by etrans|]. split; [|split].
    + apply NoDup_cons. split; [|done].
      intros Hin. apply Hnone in Hin. congruence.
    + intros l' [->|Hin]%elem_of_cons; [done|].
      apply Hnone in Hin. destruct (h !! l') as [o'|] eqn:Ho; [|done].
      apply (lookup_weaken _ _ _ _ Ho) in Hsub. congruence.
    + simpl. constructor; [|done]. by eapply lookup_weaken.
Qed.

Lemma clone_board_spec (h : gmap nat Store.obj) (b : nat) (B : Board) :
  Store.load_board h b = Ok B ->
  exists h' nb ls, Store.clone_board h b = Ok (h', nb) /\ owned h h' nb ls B.
Proof.
  intros (ls0 & Hg & HF%load_rows_Forall2)%bind_Ok.
  unfold Store.clone_board. rewrite Hg; cbn [bind].
  destruct (clone_rows_spec ls0 h B HF) as (h1 & ls & -> & Hsub & Hnd & Hnone & HF1).
  cbn [bind fst snd].
  destruct (alloc_fresh h1 (Store.Grid ls)) as (Hfresh & Hnew & Hsub1).
  set (h2 := (Store.alloc h1 (Store.Grid ls)).1) in *.
  set (nb := (Store.alloc h1 (Store.Grid ls)).2) in *.
  exists h2, nb, ls. split; [by destruct (Store.alloc h1 (Store.Grid ls))|].
  rewrite clone_board_id in HF1.
  repeat split; [done | done | | done | | by etrans | by eapply rowP_weaken].
  - intros Hin. apply list_elem_of_lookup_1 in Hin as (i & Hi).
    destruct (Forall2_lookup_l _ _ _ _ _ HF1 Hi) as (row & _ & Hrow).
    unfold rowP in Hrow. congruence.
  - destruct (h !! nb) as [o'|] eqn:Ho; [|done].
    apply (lookup_weaken _ _ _ _ Ho) in Hsub. congruence.
Qed.

Lemma getitem_Ok_inv {A} (l : list A) (i : Z) (x : A) :
  getitem l i = Ok x ->
  exists k, py_index (length l) i = Ok k /\ l !! k = Some x.
Proof.
  intros (k & Hk & Hx)%bind_Ok. exists k. split; [done|].
  destruct (l !! k); [by injection Hx as -> | done].
Qed.

Lemma setitem_Ok_inv {A} (l l' : list A) (i : Z) (x : A) :
  setitem l i x = Ok l' ->
  exists k, py_index (length l) i = Ok k /\ l' = <[k := x]> l.
Proof. intros (k & Hk & [= <-])%bind_Ok. eauto. Qed.

Lemma getitem_lookup {A} (l : list A) (i : Z) (k : nat) (x : A) :
  py_index (length l) i = Ok k -> l !! k = Some x -> getitem l i = Ok x.
Proof. intros Hk Hx. unfold getitem. rewrite Hk; cbn [bind]. by rewrite Hx. Qed.

(** Reading through the store is reading the board value, exceptions
    included. *)
Lemma store_board_get (h : gmap nat Store.obj) (b : nat) (ls : list nat)
    (B : Board) (r c : Z) :
  h !! b = Some (Store.Grid ls) -> Forall2 (rowP h) ls B ->
  Store.board_get h b r c = board_get B r c.
Proof.
  intros Hg%get_grid_Ok HF. unfold Store.board_get, board_get.
  rewrite Hg; cbn [bind]. unfold getitem at 1 3.
  rewrite (Forall2_length _ _ _ HF).
  destruct (py_index (length B) r) as [k|e]; [|done]; cbn [bind].
  destruct (B !! k) as [row|] eqn:Hrow.
  - destruct (Forall2_lookup_r _ _ _ _ _ HF Hrow) as (l & -> & Hl).
    cbn [bind]. apply get_row_Ok in Hl. by rewrite Hl.
  - apply lookup_ge_None in Hrow. rewrite <- (Forall2_length _ _ _ HF) in Hrow.
    apply lookup_ge_None in Hrow. by rewrite Hrow.
Qed.

(** Assigning into a row of the clone is [board_set] on its value, and it
    touches nothing the caller's store held. *)
Lemma store_board_set (h0 h : gmap nat Store.obj) (nb : nat) (ls : list nat)
    (B B' : Board) (r c : Z) (x : option Piece) :
  owned h0 h nb ls B -> board_set B r c x = Ok B' ->
  exists h', Store.board_set h nb r c x = Ok h' /\ owned h0 h' nb ls B'.
Proof.
  intros (Hnb & Hnd & Hnotin & Hnone & Hnb0 & Hsub & HF).
  intros (row & Hrow & (row' & Hrow' & HB')%bind_Ok)%bind_Ok.
  apply getitem_Ok_inv in Hrow as (k & Hk & Hrowk).
  apply setitem_Ok_inv in HB' as (k' & Hk' & ->).
  assert (k' = k) as -> by congruence.
  destruct (Forall2_lookup_r _ _ _ _ _ HF Hrowk) as (lk & Hlk & Hlrow).
  unfold Store.board_set. apply get_grid_Ok in Hnb as Hg. rewrite Hg.
  cbn [bind].
  rewrite (getitem_lookup ls r k lk)
    by (try rewrite (Forall2_length _ _ _ HF); done).
  cbn [bind]. apply get_row_Ok in Hlrow as Hgr. rewrite Hgr; cbn [bind].
  rewrite Hrow'; cbn [bind].
  assert (Hlkin : lk ∈ ls) by (by eapply list_elem_of_lookup_2).
  eexists; split; [done|].
  repeat split; [| done | done | done | done | |].
  - rewrite lookup_insert_ne; [done|]. by intros ->.
  - apply map_subseteq_spec. intros i o Hi.
    rewrite lookup_insert_ne.
    + by eapply lookup_weaken.
    + intros ->. rewrite Hnone in Hi by done. discriminate.
  - apply Forall2_same_length_lookup. split.
    + rewrite length_insert. by eapply Forall2_length.
    + intros j l rw Hl Hrw. unfold rowP.
      destruct (decide (j = k)) as [->|Hne].
      * rewrite list_lookup_insert_eq in Hrw by (by eapply lookup_lt_Some).
        injection Hrw as <-. assert (l = lk) as -> by congruence.
        by rewrite lookup_insert_eq.
      * rewrite list_lookup_insert_ne in Hrw by done.
        rewrite lookup_insert_ne.
        -- exact (Forall2_lookup_lr (rowP h) ls B j l rw HF Hl Hrw).
        -- intros ->. apply Hne. symmetry. by eapply NoDup_lookup.
Qed.

Lemma store_make_move (h : gmap nat Store.obj) (b : nat) (B B' : Board)
    (m : Move) :
  Store.load_board h b = Ok B -> make_move B m = Ok B' ->
  exists h' nb, Store.make_move h b m = Ok (h', nb) /\
    h ⊆ h' /\ h !! nb = None /\ Store.load_board h' nb = Ok B'.
Proof.
  intros Hload Hmv. destruct m as [[r1 c1] [r2 c2]].
  destruct (clone_board_spec h b B Hload) as (h1 & nb & ls & Hclone & Hown).
  assert (Hfin : forall hf Bf, owned h hf nb ls Bf ->
            h ⊆ hf /\ h !! nb = None /\ Store.load_board hf nb = Ok Bf).
  { intros hf Bf (Hnb' & _ & _ & _ & Hnb0 & Hsub & HF).
    split; [done|]. split; [done|]. unfold Store.load_board.
    apply get_grid_Ok in Hnb'. rewrite Hnb'; cbn [bind].
    by apply load_rows_Forall2. }
  unfold make_move in Hmv. rewrite clone_board_id in Hmv.
  apply bind_Ok in Hmv as (piece & Hpiece & Hmv).
  apply bind_Ok in Hmv as (B1 & HB1 & Hmv).
  apply bind_Ok in Hmv as (B2 & HB2 & Hmv).
  destruct (store_board_set h h1 nb ls B B1 r1 c1 None Hown HB1)
    as (h2 & Hset1 & Hown1).
  destruct (store_board_set h h2 nb ls B1 B2 r2 c2 piece Hown1 HB2)
    as (h3 & Hset2 & Hown2).
  unfold Store.make_move. rewrite Hclone; cbn [bind fst snd].
  destruct Hown as (Hnb & _ & _ & _ & _ & _ & HF).
  rewrite (store_board_get h1 nb ls B r1 c1 Hnb HF), Hpiece; cbn [bind].
  rewrite Hset1; cbn [bind]. rewrite Hset2; cbn [bind].
  destruct piece as [pc|]; cbv beta iota in Hmv;
    [|injection Hmv as <-; exists h3, nb; split; [done|]; by apply Hfin].
  destruct (kind_eqb (kind pc) Pawn);
    [|injection Hmv as <-; exists h3, nb; split; [done|]; by apply Hfin].
  apply bind_Ok in Hmv as (B3 & HB3 & Hmv).
  assert (exists h4, (if color_eqb (color pc) White && (r2 =? 0)
                      then Store.board_set h3 nb r2 c2 (Some (mkPiece White Queen))
                      else Ok h3) = Ok h4 /\ owned h h4 nb ls B3)
    as (h4 & -> & Hown3).
  { destruct (color_eqb (color pc) White && (r2 =? 0)).
    - by eapply store_board_set.
    - injection HB3 as <-. eauto. }
  cbn [bind].
  assert (exists h5, (if color_eqb (color pc) Black && (r2 =? ROWS - 1)
                      then Store.board_set h4 nb r2 c2 (Some (mkPiece Black Queen))
                      else Ok h4) = Ok h5 /\ owned h h5 nb ls B')
    as (h5 & -> & Hown4).
  { destruct (color_eqb (color pc) Black && (r2 =? ROWS - 1)).
    - by eapply store_board_set.
    - injection Hmv as <-. eauto. }
  cbn [bind]. exists h5, nb. split; [done|]. by apply Hfin.
Qed.

(** * The claims *)

(** C1: every move returned by [generate_legal_moves b clr] (which returns
    on every 8x8 board) can be applied with [make_move], and on the board it
    yields [is_in_check] for [clr] is false. *)
Theorem legal_moves_no_self_check (b : Board) (clr : Color) :
  wf_board b = true ->
  exists legal, generate_legal_moves b clr = Ok legal /\
    forall m, m ∈ legal ->
      exists nb, make_move b m = Ok nb /\ is_in_check nb clr = Ok false.
Proof.
  intros Hwf.
  destruct (generate_legal_moves_filter b clr Hwf) as (pseudo & _ & _ & Hgen).
  eexists; split; [exact Hgen|].
  intros m [_ Hk]%elem_of_List_filter. by apply keeps_true.
Qed.

Lemma legal_moves_no_self_check_witness :
  wf_board start_position = true /\
  exists legal, generate_legal_moves start_position White = Ok legal /\
    forall m, m ∈ legal ->
      exists nb, make_move start_position m = Ok nb /\
                 is_in_check nb White = Ok false.
Proof.
  split; [reflexivity|].
  apply (legal_moves_no_self_check start_position White). reflexivity.
Defined.

(** C2: [check_game_end], entered with the game not over, leaves it ongoing
    when the side to move has a legal move; with no legal move it ends the
    game, as checkmate won by the opposite colour when the side to move is in
    check and as stalemate otherwise. *)
Theorem check_game_end_classification (g : Game) :
  wf_board (board g) = true -> game_over g = false ->
  exists legal chk g',
    generate_legal_moves (board g) (turn g) = Ok legal /\
    is_in_check (board g) (turn g) = Ok chk /\
    check_game_end g = Ok g' /\
    board g' = board g /\ turn g' = turn g /\
    match legal with
    | _ :: _ => game_over g' = false /\ result_text g' = result_text g
    | [] =>
        game_over g' = true /\
        result_text g' =
          if chk
          then "Checkmate! " +:+ winner_name (opponent (turn g)) +:+ " wins."
          else "Stalemate! Draw."
    end.
Proof.
  intros Hwf Hover.
  destruct (generate_legal_moves_filter _ (turn g) Hwf) as (pseudo & _ & _ & Hgen).
  destruct (is_in_check_total _ (turn g) Hwf) as (chk & Hchk).
  unfold check_game_end. rewrite Hgen, Hchk; cbn [bind].
  destruct (List.filter (keeps (board g) (turn g)) pseudo) as [|m legal].
  - destruct chk.
    + exists [], true. eexists. repeat split. simpl.
      by destruct (turn g).
    + exists [], false. eexists. repeat split.
  - exists (m :: legal), chk, g. by repeat split.
Qed.

Lemma check_game_end_classification_witness :
  let g := mkGame start_position White None [] false "" in
  wf_board (board g) = true /\ game_over g = false /\
  exists legal chk g',
    generate_legal_moves (board g) (turn g) = Ok legal /\
    is_in_check (board g) (turn g) = Ok chk /\
    check_game_end g = Ok g' /\
    board g' = board g /\ turn g' = turn g /\
    match legal with
    | _ :: _ => game_over g' = false /\ result_text g' = result_text g
    | [] =>
        game_over g' = true /\
        result_text g' =
          if chk
          then "Checkmate! " +:+ winner_name (opponent (turn g)) +:+ " wins."
          else "Stalemate! Draw."
    end.
Proof.
  intros g. split; [reflexivity|]. split; [reflexivity|].
  apply (check_game_end_classification g); reflexivity.
Defined.

(** What [move_score] computes, in the words of [ai_choose_move]: the
    material of the board the move yields, times +1 for White and -1 for
    Black. *)
Lemma move_score_Ok (b : Board) (clr : Color) (m : Move) (v : Z) :
  move_score b clr m = Ok v <->
  exists nb e, make_move b m = Ok nb /\ evaluate_material nb = Ok e /\
    v = e * match clr with White => 1 | Black => -1 end.
Proof.
  unfold move_score. split.
  - intros (nb & Hnb & (e & He & [= <-])%bind_Ok)%bind_Ok.
    exists nb, e. by destruct clr.
  - intros (nb & e & Hnb & He & ->). rewrite Hnb; cbn [bind].
    rewrite He; cbn [bind]. by destruct clr.
Qed.

(** C3: on an 8x8 board [ai_choose_move] returns none exactly when there is
    no legal move.  Otherwise, whatever the random source, it returns a
    legal move [m] for which [evaluate_material (make_move b m)], multiplied
    by +1 for White and by -1 for Black, is maximal over all legal moves;
    the returned move is the item, at the index the random source selects,
    of the list of all the legal moves of maximal signed score, in the order
    of [generate_legal_moves]. *)
Theorem ai_choose_move_correct (b : Board) (clr : Color) :
  wf_board b = true ->
  let sgn := match clr with White => 1 | Black => -1 end in
  let scored (m : Move) (v : Z) : Prop :=
    exists nb e, make_move b m = Ok nb /\ evaluate_material nb = Ok e /\
                 v = e * sgn in
  exists legal, generate_legal_moves b clr = Ok legal /\
    (forall rnd, ai_choose_move rnd b clr = Ok None <-> legal = []) /\
    (forall m, m ∈ legal -> exists v, scored m v) /\
    (legal <> [] ->
     forall rnd, exists m v,
       ai_choose_move rnd b clr = Ok (Some m) /\ m ∈ legal /\ scored m v /\
       forall m' v', m' ∈ legal -> scored m' v' -> v' <= v) /\
    (legal <> [] ->
     exists (is_best : Move -> bool) best,
       best = List.filter is_best legal /\ best <> [] /\
       (forall m, m ∈ legal ->
          (is_best m = true <->
           exists v, scored m v /\
             forall m' v', m' ∈ legal -> scored m' v' -> v' <= v)) /\
       forall rnd,
         ai_choose_move rnd b clr = Ok (best !! (rnd mod length best)%nat)).
Proof.
  intros Hwf sgn scored.
  assert (Hfun : forall m v v', scored m v -> scored m v' -> v = v').
  { intros m v v' (nb & e & Hnb & He & ->) (nb' & e' & Hnb' & He' & ->).
    rewrite Hnb in Hnb'. injection Hnb' as <-.
    rewrite He in He'. by injection He' as <-. }
  destruct (ai_choose_move_spec b clr Hwf) as (legal & Hgen & Hspec).
  exists legal. split; [done|].
  destruct legal as [|m0 legal'].
  { split; [by intros rnd; rewrite Hspec|].
    split; [by intros m ?%elem_of_nil|]. by split. }
  destruct Hspec as (s & best & Hbest & Hne & Hscores & Hai).
  assert (Hsc : forall m, m ∈ m0 :: legal' ->
            scored m (score_of b clr m) /\ score_of b clr m <= s).
  { intros m Hm. destruct (Hscores m Hm) as [Hms Hle].
    split; [|done]. by apply move_score_Ok in Hms. }
  assert (Hpick : forall rnd, exists m,
            ai_choose_move rnd b clr = Ok (Some m) /\
            best !! (rnd mod length best)%nat = Some m).
  { intros rnd. destruct (random_choice_index rnd best Hne) as (m & Hin & Hm).
    exists m. by rewrite Hai, Hm. }
  assert (Hmax : forall m, m ∈ m0 :: legal' -> score_of b clr m = s ->
            forall m' v', m' ∈ m0 :: legal' -> scored m' v' -> v' <= s).
  { intros m _ _ m' v' Hm' Hv'. destruct (Hsc m' Hm') as [Hs' Hle].
    by rewrite (Hfun m' v' _ Hv' Hs'). }
  split; [|split; [|split]].
  - intros rnd. destruct (Hpick rnd) as (m & -> & _). split; discriminate.
  - intros m Hm. exists (score_of b clr m). by apply Hsc.
  - intros _ rnd. destruct (Hpick rnd) as (m & Hm & Hin).
    apply list_elem_of_lookup_2 in Hin. rewrite Hbest in Hin.
    apply elem_of_List_filter in Hin as [Hin Hs%Z.eqb_eq].
    exists m, s. split; [done|]. split; [done|]. split.
    + rewrite <- Hs. by apply Hsc.
    + by apply (Hmax m).
  - intros _. exists (fun m => score_of b clr m =? s), best.
    split; [done|]. split; [done|]. split.
    + intros m Hm. rewrite Z.eqb_eq. split.
      * intros Hs. exists s. split; [rewrite <- Hs; by apply Hsc|].
        by apply (Hmax m).
      * intros (v & Hv & Hall).
        destruct (Hsc m Hm) as [Hms Hle].
        rewrite (Hfun m v _ Hv Hms) in Hall.
        destruct (Hpick 0%nat) as (m1 & _ & Hm1).
        apply list_elem_of_lookup_2 in Hm1. rewrite Hbest in Hm1.
        apply elem_of_List_filter in Hm1 as [Hm1 Hs1%Z.eqb_eq].
        destruct (Hsc m1 Hm1) as [Hm1s _]. rewrite Hs1 in Hm1s.
        specialize (Hall m1 s Hm1 Hm1s). lia.
    + intros rnd. by destruct (Hpick rnd) as (m & -> & ->).
Qed.

Lemma ai_choose_move_correct_witness :
  wf_board start_position = true /\
  let sgn := match Black with White => 1 | Black => -1 end in
  let scored (m : Move) (v : Z) : Prop :=
    exists nb e, make_move start_position m = Ok nb /\
                 evaluate_material nb = Ok e /\ v = e * sgn in
  exists legal, generate_legal_moves start_position Black = Ok legal /\
    (forall rnd, ai_choose_move rnd start_position Black = Ok None
                 <-> legal = []) /\
    (forall m, m ∈ legal -> exists v, scored m v) /\
    (legal <> [] ->
     forall rnd, exists m v,
       ai_choose_move rnd start_position Black = Ok (Some m) /\
       m ∈ legal /\ scored m v /\
       forall m' v', m' ∈ legal -> scored m' v' -> v' <= v) /\
    (legal <> [] ->
     exists (is_best : Move -> bool) best,
       best = List.filter is_best legal /\ best <> [] /\
       (forall m, m ∈ legal ->
          (is_best m = true <->
           exists v, scored m v /\
             forall m' v', m' ∈ legal -> scored m' v' -> v' <= v)) /\
       forall rnd,
         ai_choose_move rnd start_position Black
         = Ok (best !! (rnd mod length best)%nat)).
Proof.
  split; [reflexivity|].
  apply (ai_choose_move_correct start_position Black). reflexivity.
Defined.

(** C4 fails as stated: a move whose destination is its own source, made by
    a white pawn standing on row 0, promotes the pawn where it stands, so
    the source square is not empty afterwards. *)
Lemma promotion_same_square_counterexample :
  ~ (forall (b : Board) (r1 c1 r2 c2 : Z) (p : Piece),
       wf_board b = true ->
       board_get b r1 c1 = Ok (Some p) -> kind p = Pawn ->
       (color p = White /\ r2 = 0) \/ (color p = Black /\ r2 = 7) ->
       exists nb, make_move b ((r1, c1), (r2, c2)) = Ok nb /\
         board_get nb r2 c2 = Ok (Some (mkPiece (color p) Queen)) /\
         board_get nb r1 c1 = Ok None).
Proof.
  intros H.
  destruct (H pawn_on_last_row 0 3 0 3 (mkPiece White Pawn)
              eq_refl eq_refl eq_refl (or_introl (conj eq_refl eq_refl)))
    as (nb & Hmv & _ & Hsrc).
  vm_compute in Hmv. injection Hmv as <-. vm_compute in Hsrc. discriminate.
Qed.

(** C4, amended: for an 8x8 board and a move with in-bounds coordinates whose
    source holds a pawn, [make_move] returns a board whose destination holds
    a queen of the pawn's colour when a white pawn arrives on row 0 or a
    black pawn on row 7, and the pawn itself on any other row; the source
    square is empty whenever it differs from the destination. *)
Theorem make_move_promotion (b : Board) (r1 c1 r2 c2 : Z) (p : Piece) :
  wf_board b = true -> in_bounds r1 c1 = true -> in_bounds r2 c2 = true ->
  board_get b r1 c1 = Ok (Some p) -> kind p = Pawn ->
  exists nb, make_move b ((r1, c1), (r2, c2)) = Ok nb /\
    ((color p = White /\ r2 = 0) \/ (color p = Black /\ r2 = 7) ->
     board_get nb r2 c2 = Ok (Some (mkPiece (color p) Queen))) /\
    (~ ((color p = White /\ r2 = 0) \/ (color p = Black /\ r2 = 7)) ->
     board_get nb r2 c2 = Ok (Some p)) /\
    ((r1, c1) <> (r2, c2) -> board_get nb r1 c1 = Ok None).
Proof.
  intros Hwf H1 H2 Hp Hk.
  destruct (make_move_cells b r1 c1 r2 c2 Hwf H1 H2) as (nb & Hmv & Hwfnb & Hcells).
  exists nb. split; [done|].
  assert (Hsrc : cell b r1 c1 = Some p) by (unfold cell; by rewrite Hp).
  rewrite !(board_get_cell nb) by done.
  rewrite !Hcells by done. rewrite decide_True by done. rewrite Hsrc.
  destruct p as [col k]; simpl in *; subst k.
  unfold landed, ROWS; simpl.
  split; [|split].
  - intros [[-> ->]|[-> ->]]; done.
  - intros Hnot. destruct col; simpl.
    + destruct (Z.eqb_spec r2 0); [|done]. destruct Hnot; by left.
    + destruct (Z.eqb_spec r2 (8 - 1)); [|done]. destruct Hnot; right; split; [done|lia].
  - intros Hne. rewrite decide_False by done. by rewrite decide_True by done.
Qed.

Lemma make_move_promotion_witness :
  exists nb, make_move capture_promotion_position ((1, 0), (0, 0)) = Ok nb /\
    ((White = White /\ 0 = 0) \/ (White = Black /\ 0 = 7) ->
     board_get nb 0 0 = Ok (Some (mkPiece White Queen))) /\
    (~ ((White = White /\ 0 = 0) \/ (White = Black /\ 0 = 7)) ->
     board_get nb 0 0 = Ok (Some (mkPiece White Pawn))) /\
    ((1, 0) <> (0, 0) -> board_get nb 1 0 = Ok None).
Proof.
  apply (make_move_promotion capture_promotion_position 1 0 0 0
           (mkPiece White Pawn)); reflexivity.
Defined.

(** C5: [initial_board()] has 16 white and 16 black pieces, a black pawn on
    every column of row 1 and a white pawn on every column of row 6, the back
    ranks Rook, Knight, Bishop, Queen, King, Bishop, Knight, Rook on row 0
    (black) and row 7 (white), and White has 20 legal moves. *)
Theorem initial_board_position :
  exists b, initial_board = Ok b /\
    count_pieces White b = 16%nat /\ count_pieces Black b = 16%nat /\
    b !! 1%nat = Some (replicate 8 (Some (mkPiece Black Pawn))) /\
    b !! 6%nat = Some (replicate 8 (Some (mkPiece White Pawn))) /\
    b !! 0%nat = Some (map (fun k => Some (mkPiece Black k)) order) /\
    b !! 7%nat = Some (map (fun k => Some (mkPiece White k)) order) /\
    order = [Rook; Knight; Bishop; Queen; King; Bishop; Knight; Rook] /\
    find_king b Black = Ok (Some (0, 4)) /\
    find_king b White = Ok (Some (7, 4)) /\
    exists legal, generate_legal_moves b White = Ok legal /\
                  length legal = 20%nat.
Proof.
  exists start_position. split; [by vm_compute|].
  repeat split; try by vm_compute.
  eexists. split; [by vm_compute | reflexivity].
Qed.

(** C6 fails as stated: a white pawn that takes a black knight on row 0 is
    promoted, and the score rises by 11 instead of 3. *)
Lemma capture_knight_counterexample :
  ~ (forall (b : Board) (r1 c1 r2 c2 : Z) (p : Piece),
       wf_board b = true ->
       board_get b r1 c1 = Ok (Some p) -> color p = White ->
       board_get b r2 c2 = Ok (Some (mkPiece Black Knight)) ->
       exists nb e, make_move b ((r1, c1), (r2, c2)) = Ok nb /\
         evaluate_material b = Ok e /\ evaluate_material nb = Ok (e + 3)).
Proof.
  intros H.
  destruct (H capture_promotion_position 1 0 0 1 (mkPiece White Pawn)
              eq_refl eq_refl eq_refl eq_refl)
    as (nb & e & Hmv & He & Hnb).
  vm_compute in Hmv. injection Hmv as <-.
  vm_compute in He. injection He as <-.
  vm_compute in Hnb. discriminate.
Qed.

(** C6, amended: [evaluate_material(initial_board())] is 0, and on an 8x8
    board a move with in-bounds coordinates by a white piece onto a square
    holding a black knight raises [evaluate_material] by exactly 3, unless
    the white piece is a pawn arriving on row 0. *)
Theorem capture_knight_material :
  (exists b0, initial_board = Ok b0 /\ evaluate_material b0 = Ok 0) /\
  forall (b : Board) (r1 c1 r2 c2 : Z) (p : Piece),
    wf_board b = true -> in_bounds r1 c1 = true -> in_bounds r2 c2 = true ->
    board_get b r1 c1 = Ok (Some p) -> color p = White ->
    board_get b r2 c2 = Ok (Some (mkPiece Black Knight)) ->
    ~ (kind p = Pawn /\ r2 = 0) ->
    exists nb e, make_move b ((r1, c1), (r2, c2)) = Ok nb /\
      evaluate_material b = Ok e /\ evaluate_material nb = Ok (e + 3).
Proof.
  split; [exists start_position; split; by vm_compute|].
  intros b r1 c1 r2 c2 p Hwf H1 H2 Hp Hcol Hq Hnot.
  assert (Hsrc : cell b r1 c1 = Some p) by (unfold cell; by rewrite Hp).
  assert (Hdst : cell b r2 c2 = Some (mkPiece Black Knight))
    by (unfold cell; by rewrite Hq).
  assert (Hne : (r1, c1) <> (r2, c2)).
  { intros [= -> ->]. rewrite Hsrc in Hdst. injection Hdst as ->. done. }
  destruct (make_move_material b r1 c1 r2 c2 Hwf H1 H2 Hne) as (nb & Hmv & Heval).
  exists nb, (msum (cell b)). split; [done|].
  split; [by apply evaluate_material_sum|].
  rewrite Heval. f_equal. rewrite Hsrc, Hdst.
  destruct p as [col k]; simpl in *; subst col.
  unfold landed, piece_score; cbn [color kind].
  change (color_eqb White White) with true.
  change (color_eqb White Black) with false.
  change (color_eqb Black White) with false.
  destruct (kind_eqb k Pawn) eqn:Hk, (Z.eqb_spec r2 0) as [Hr|Hr];
    cbn [andb orb PIECE_VALUES kind color];
    change (color_eqb White White) with true; cbv iota; try lia.
  apply bool_decide_eq_true in Hk. by destruct Hnot.
Qed.

Lemma capture_knight_material_witness :
  exists nb e, make_move knight_takes_knight ((2, 2), (0, 1)) = Ok nb /\
    evaluate_material knight_takes_knight = Ok e /\
    evaluate_material nb = Ok (e + 3).
Proof.
  apply (proj2 capture_knight_material knight_takes_knight 2 2 0 1
           (mkPiece White Knight)); try reflexivity.
  intros [Hk _]. discriminate Hk.
Defined.

(** C7: when [find_king] returns none, [is_in_check] returns false instead
    of raising. *)
Theorem is_in_check_no_king (b : Board) (clr : Color) :
  find_king b clr = Ok None -> is_in_check b clr = Ok false.
Proof. intros Hk. unfold is_in_check. by rewrite Hk. Qed.

Lemma is_in_check_no_king_witness :
  find_king empty_board White = Ok None /\
  is_in_check empty_board White = Ok false.
Proof.
  split; [reflexivity|].
  apply (is_in_check_no_king empty_board White). reflexivity.
Defined.

(** C8 fails as stated: a move from a square to itself leaves the piece
    where it is, so the source square is not empty in the result. *)
Lemma make_move_same_square_counterexample :
  ~ (forall (b : Board) (r1 c1 r2 c2 : Z),
       wf_board b = true -> in_bounds r1 c1 = true -> in_bounds r2 c2 = true ->
       exists nb, make_move b ((r1, c1), (r2, c2)) = Ok nb /\
         (forall r c, in_bounds r c = true ->
            (r, c) <> (r1, c1) -> (r, c) <> (r2, c2) ->
            board_get nb r c = board_get b r c) /\
         board_get nb r1 c1 = Ok None).
Proof.
  intros H.
  destruct (H start_position 6 0 6 0 eq_refl eq_refl eq_refl)
    as (nb & Hmv & _ & Hsrc).
  vm_compute in Hmv. injection Hmv as <-. vm_compute in Hsrc. discriminate.
Qed.

(** C8, amended: for a board object of the store holding an 8x8 board and a
    move with in-bounds coordinates, [make_move] returns a newly allocated
    board object and leaves every object the store held before the call as
    it was, the input board included; the returned board is the one the
    functional [make_move] computes, it agrees with the input on every
    square other than the move's source and destination, and its source
    square is empty whenever the source differs from the destination. *)
Theorem make_move_frame (h : gmap nat Store.obj) (b : nat) (B : Board)
    (r1 c1 r2 c2 : Z) :
  Store.load_board h b = Ok B -> wf_board B = true ->
  in_bounds r1 c1 = true -> in_bounds r2 c2 = true ->
  exists h' nb B',
    Store.make_move h b ((r1, c1), (r2, c2)) = Ok (h', nb) /\
    h ⊆ h' /\ Store.load_board h' b = Ok B /\
    h !! nb = None /\ Store.load_board h' nb = Ok B' /\
    make_move B ((r1, c1), (r2, c2)) = Ok B' /\
    (forall r c, in_bounds r c = true ->
       (r, c) <> (r1, c1) -> (r, c) <> (r2, c2) ->
       board_get B' r c = board_get B r c) /\
    ((r1, c1) <> (r2, c2) -> board_get B' r1 c1 = Ok None).
Proof.
  intros Hload Hwf H1 H2.
  destruct (make_move_cells B r1 c1 r2 c2 Hwf H1 H2) as (B' & Hmv & Hwf' & Hcells).
  destruct (store_make_move h b B B' _ Hload Hmv)
    as (h' & nb & Hrun & Hsub & Hnew & Hload').
  exists h', nb, B'. split; [done|]. split; [done|].
  split; [by eapply load_board_weaken|].
  split; [done|]. split; [done|]. split; [done|]. split.
  - intros r c Hin Hs Hd. rewrite !board_get_cell by done.
    rewrite Hcells by done. by rewrite !decide_False by done.
  - intros Hne. rewrite board_get_cell by done. rewrite Hcells by done.
    rewrite decide_False by done. by rewrite decide_True by done.
Qed.

Lemma make_move_frame_witness :
  exists h' nb B',
    Store.make_move start_store 8%nat ((6, 4), (4, 4)) = Ok (h', nb) /\
    start_store ⊆ h' /\ Store.load_board h' 8%nat = Ok start_position /\
    start_store !! nb = None /\ Store.load_board h' nb = Ok B' /\
    make_move start_position ((6, 4), (4, 4)) = Ok B' /\
    (forall r c, in_bounds r c = true ->
       (r, c) <> (6, 4) -> (r, c) <> (4, 4) ->
       board_get B' r c = board_get start_position r c) /\
    ((6, 4) <> (4, 4) -> board_get B' 6 4 = Ok None).
Proof.
  apply (make_move_frame start_store 8%nat start_position 6 4 4 4);
    by vm_compute.
Defined.

(** C9: on an 8x8 board [generate_pseudo_legal_moves] returns, and every
    move it returns has its source and its destination on the board, a
    piece of the given colour on the source and no piece of that colour on
    the destination. *)
Theorem pseudo_legal_moves_sound (b : Board) (clr : Color) :
  wf_board b = true ->
  exists moves, generate_pseudo_legal_moves b clr = Ok moves /\
    forall r1 c1 r2 c2, ((r1, c1), (r2, c2)) ∈ moves ->
      in_bounds r1 c1 = true /\ in_bounds r2 c2 = true /\
      (exists p, board_get b r1 c1 = Ok (Some p) /\ color p = clr) /\
      (exists q, board_get b r2 c2 = Ok q /\
                 forall p', q = Some p' -> color p' <> clr).
Proof.
  intros Hwf.
  destruct (generate_pseudo_legal_moves_ok b clr Hwf) as (moves & Hgen & Hok).
  exists moves. split; [done|].
  intros r1 c1 r2 c2 Hin. rewrite Forall_forall in Hok.
  exact (Hok _ Hin).
Qed.

Lemma pseudo_legal_moves_sound_witness :
  wf_board knight_takes_knight = true /\
  exists moves, generate_pseudo_legal_moves knight_takes_knight White = Ok moves /\
    forall r1 c1 r2 c2, ((r1, c1), (r2, c2)) ∈ moves ->
      in_bounds r1 c1 = true /\ in_bounds r2 c2 = true /\
      (exists p, board_get knight_takes_knight r1 c1 = Ok (Some p) /\
                 color p = White) /\
      (exists q, board_get knight_takes_knight r2 c2 = Ok q /\
                 forall p', q = Some p' -> color p' <> White).
Proof.
  split; [reflexivity|].
  apply (pseudo_legal_moves_sound knight_takes_knight White). reflexivity.
Defined.

(** C10: on an 8x8 board a move with in-bounds coordinates from an empty
    square raises nothing; the board returned has the source and the
    destination empty, whatever the destination held, and every other
    square as before: no promotion takes place. *)
Theorem make_move_empty_source (b : Board) (r1 c1 r2 c2 : Z) :
  wf_board b = true -> in_bounds r1 c1 = true -> in_bounds r2 c2 = true ->
  board_get b r1 c1 = Ok None ->
  exists nb, make_move b ((r1, c1), (r2, c2)) = Ok nb /\
    board_get nb r1 c1 = Ok None /\ board_get nb r2 c2 = Ok None /\
    forall r c, in_bounds r c = true ->
      (r, c) <> (r1, c1) -> (r, c) <> (r2, c2) ->
      board_get nb r c = board_get b r c.
Proof.
  intros Hwf H1 H2 Hsrc.
  destruct (make_move_cells b r1 c1 r2 c2 Hwf H1 H2) as (nb & Hmv & Hwfnb & Hcells).
  assert (Hnone : cell b r1 c1 = None) by (unfold cell; by rewrite Hsrc).
  exists nb. split; [done|].
  rewrite !(board_get_cell nb) by done. rewrite !Hcells by done.
  rewrite Hnone. rewrite (decide_True (P := (r2, c2) = (r2, c2))) by done.
  split; [|split].
  - by repeat case_decide.
  - done.
  - intros r c Hin Hs Hd. rewrite !board_get_cell by done.
    rewrite Hcells by done. by rewrite !decide_False by done.
Qed.

Lemma make_move_empty_source_witness :
  exists nb, make_move start_position ((3, 0), (6, 0)) = Ok nb /\
    board_get nb 3 0 = Ok None /\ board_get nb 6 0 = Ok None /\
    forall r c, in_bounds r c = true ->
      (r, c) <> (3, 0) -> (r, c) <> (6, 0) ->
      board_get nb r c = board_get start_position r c.
Proof.
  apply (make_move_empty_source start_position 3 0 6 0); reflexivity.
Defined.

(** * Further properties of the core and of the controller *)

(** ** [find_king] scans row by row *)

Lemma is_king_of_true (clr : Color) (q : option Piece) :
  is_king_of clr q = true <-> q = Some (mkPiece clr King).
Proof.
  unfold is_king_of, color_eqb, kind_eqb. destruct q as [[col k]|]; simpl.
  - rewrite andb_true_iff, !bool_decide_eq_true. split.
    + by intros [-> ->].
    + by intros [= -> ->].
  - split; discriminate.
Qed.

Lemma find_king_cols_seq (b : Board) (clr : Color) (r : Z) :
  wf_board b = true -> 0 <= r < 8 ->
  forall (n : nat) (c0 : Z), 0 <= c0 -> c0 + Z.of_nat n <= 8 ->
  (exists c, c0 <= c < c0 + Z.of_nat n /\
     find_king_cols b clr r (seqZ c0 (Z.of_nat n)) = Ok (Some (r, c)) /\
     is_king_of clr (cell b r c) = true /\
     forall c', c0 <= c' < c -> is_king_of clr (cell b r c') = false) \/
  (find_king_cols b clr r (seqZ c0 (Z.of_nat n)) = Ok None /\
   forall c', c0 <= c' < c0 + Z.of_nat n ->
     is_king_of clr (cell b r c') = false).
Proof.
  intros Hwf Hr. induction n as [|n IH]; intros c0 Hc0 Hn.
  - right. split; [done|]. intros c' Hc'. lia.
  - rewrite seqZ_cons by lia.
    replace (Z.pred (Z.of_nat (S n))) with (Z.of_nat n) by lia.
    cbn [find_king_cols].
    rewrite board_get_cell by (try apply in_bounds_spec; done || lia).
    cbn [bind]. destruct (is_king_of clr (cell b r c0)) eqn:Hk.
    + left. exists c0. repeat split; [lia..| done |]. intros c' Hc'. lia.
    + destruct (IH (Z.succ c0)) as [(c & Hc & Hfind & Hking & Hbefore)|[Hfind Hnone]];
        [lia | lia | |].
      * left. exists c. repeat split; [lia | lia | done | done |].
        intros c' Hc'. destruct (decide (c' = c0)) as [->|]; [done|].
        apply Hbefore. lia.
      * right. split; [done|]. intros c' Hc'.
        destruct (decide (c' = c0)) as [->|]; [done|]. apply Hnone. lia.
Qed.

Lemma find_king_rows_seq (b : Board) (clr : Color) :
  wf_board b = true ->
  forall (n : nat) (r0 : Z), 0 <= r0 -> r0 + Z.of_nat n <= 8 ->
  (exists r c, r0 <= r < r0 + Z.of_nat n /\ 0 <= c < 8 /\
     find_king_rows b clr (seqZ r0 (Z.of_nat n)) = Ok (Some (r, c)) /\
     is_king_of clr (cell b r c) = true /\
     forall r' c', 0 <= c' < 8 ->
       (r0 <= r' < r \/ (r' = r /\ c' < c)) ->
       is_king_of clr (cell b r' c') = false) \/
  (find_king_rows b clr (seqZ r0 (Z.of_nat n)) = Ok None /\
   forall r' c', r0 <= r' < r0 + Z.of_nat n -> 0 <= c' < 8 ->
     is_king_of clr (cell b r' c') = false).
Proof.
  intros Hwf. induction n as [|n IH]; intros r0 Hr0 Hn.
  - right. split; [done|]. intros r' c' Hr'. lia.
  - rewrite seqZ_cons by lia.
    replace (Z.pred (Z.of_nat (S n))) with (Z.of_nat n) by lia.
    cbn [find_king_rows].
    destruct (find_king_cols_seq b clr r0 Hwf ltac:(lia) 8%nat 0)
      as [(c & Hc & Hfind & Hking & Hbefore)|[Hfind Hnone]]; [lia | lia | |].
    + unfold range, COLS. change (Z.of_nat 8) with 8 in Hfind.
      rewrite Hfind; cbn [bind].
      left. exists r0, c. repeat split; [lia.. | done |].
      intros r' c' Hc' [Hr'|[-> Hlt]]; [lia|]. apply Hbefore. lia.
    + unfold range, COLS. change (Z.of_nat 8) with 8 in Hfind.
      rewrite Hfind; cbn [bind].
      destruct (IH (Z.succ r0)) as [(r & c & Hr & Hc & Hf & Hking & Hbefore)|[Hf Hno]];
        [lia | lia | |].
      * left. exists r, c. repeat split; [lia.. | done | done |].
        intros r' c' Hc' [Hr'|[-> Hlt]].
        -- destruct (decide (r' = r0)) as [->|]; [apply Hnone; lia|].
           apply Hbefore; [done|]. left. lia.
        -- apply Hbefore; [done|]. by right.
      * right. split; [done|]. intros r' c' Hr' Hc'.
        destruct (decide (r' = r0)) as [->|]; [apply Hnone; lia|].
        apply Hno; lia.
Qed.

Lemma find_king_scan (b : Board) (clr : Color) :
  wf_board b = true ->
  (exists r c, in_bounds r c = true /\ find_king b clr = Ok (Some (r, c)) /\
     is_king_of clr (cell b r c) = true /\
     forall r' c', in_bounds r' c' = true ->
       (r' < r \/ (r' = r /\ c' < c)) ->
       is_king_of clr (cell b r' c') = false) \/
  (find_king b clr = Ok None /\
   forall r' c', in_bounds r' c' = true ->
     is_king_of clr (cell b r' c') = false).
Proof.
  intros Hwf.
  destruct (find_king_rows_seq b clr Hwf 8%nat 0)
    as [(r & c & Hr & Hc & Hf & Hking & Hbefore)|[Hf Hno]]; [lia | lia | |].
  - left. exists r, c. split; [apply in_bounds_spec; lia|].
    split; [exact Hf|]. split; [done|].
    intros r' c' [Hr' Hc']%in_bounds_spec Hlt. apply Hbefore; lia.
  - right. split; [exact Hf|].
    intros r' c' [Hr' Hc']%in_bounds_spec. apply Hno; lia.
Qed.

(** ** The moves each generator appends *)

(** A loop whose body appends, for each [x], exactly the items [R x]
    describes appends exactly the items some [x] describes. *)
Lemma for_loop_gen {A M} (R : A -> M -> Prop) (xs : list A)
    (body : A -> list M -> result (list M)) :
  (forall x, x ∈ xs ->
     exists new, (forall m, m ∈ new <-> R x m) /\
                 forall acc, body x acc = Ok (acc ++ new)) ->
  exists new, (forall m, m ∈ new <-> exists x, x ∈ xs /\ R x m) /\
              forall acc, for_loop xs body acc = Ok (acc ++ new).
Proof.
  induction xs as [|a xs IH]; intros Hbody.
  - exists []. split.
    + intros m. split; [by intros ?%elem_of_nil|].
      by intros (x & ?%elem_of_nil & _).
    + intros acc. simpl. by rewrite app_nil_r.
  - destruct (Hbody a) as (n1 & Hn1 & Hb1); [left|].
    destruct IH as (n2 & Hn2 & Hb2).
    { intros x Hx. apply Hbody. by right. }
    exists (n1 ++ n2). split.
    + intros m. rewrite elem_of_app, Hn1, Hn2. split.
      * intros [HR|(x & Hx & HR)]; [exists a | exists x];
          (split; [|done]); [left | by right].
      * intros (x & [->|Hx]%elem_of_cons & HR); [by left | right; eauto].
    + intros acc. cbn [for_loop]. rewrite Hb1; cbn [bind].
      rewrite Hb2. by rewrite app_assoc.
Qed.

Lemma gen_nil {M} (R : M -> Prop) :
  (forall m, ~ R m) ->
  exists new : list M, (forall m, m ∈ new <-> R m) /\
                       forall acc : list M, Ok acc = Ok (acc ++ new).
Proof.
  intros HR. exists []. split.
  - intros m. split; [by intros ?%elem_of_nil | by intros ?%HR].
  - intros acc. by rewrite app_nil_r.
Qed.

Lemma gen_one {M} (R : M -> Prop) (m0 : M) :
  (forall m, R m <-> m = m0) ->
  exists new : list M, (forall m, m ∈ new <-> R m) /\
                       forall acc : list M, Ok (acc ++ [m0]) = Ok (acc ++ new).
Proof.
  intros HR. exists [m0]. split; [|done].
  intros m. by rewrite list_elem_of_singleton, HR.
Qed.

Lemma ray_rule_from (b : Board) (clr : Color) (r c dr dc : Z) (dst : Square) :
  ray_rule b clr r c dr dc dst <-> ray_from b clr (r + dr) (c + dc) dr dc dst.
Proof.
  split.
  - intros (k & Hk & -> & Hway & Hin & Hown). exists (k - 1).
    split; [lia|]. split; [f_equal; ring|]. split; [|done].
    intros j Hj. destruct (Hway (j + 1)) as [Hb Hc]; [lia|].
    replace (r + dr + j * dr) with (r + (j + 1) * dr) by ring.
    by replace (c + dc + j * dc) with (c + (j + 1) * dc) by ring.
  - intros (k & Hk & -> & Hway & Hin & Hown). exists (k + 1).
    split; [lia|]. split; [f_equal; ring|]. split; [|done].
    intros j Hj. destruct (Hway (j - 1)) as [Hb Hc]; [lia|].
    replace (r + j * dr) with (r + dr + (j - 1) * dr) by ring.
    by replace (c + j * dc) with (c + dc + (j - 1) * dc) by ring.
Qed.

Lemma ray_from_out (b : Board) (clr : Color) (nr nc dr dc : Z) (dst : Square) :
  in_bounds nr nc = false -> ~ ray_from b clr nr nc dr dc dst.
Proof.
  intros Hout (k & Hk & -> & Hway & Hin & _).
  destruct (decide (k = 0)) as [->|Hne].
  - simpl in Hin. rewrite !Z.mul_0_l, !Z.add_0_r in Hin. congruence.
  - destruct (Hway 0) as [Hb _]; [lia|].
    rewrite !Z.mul_0_l, !Z.add_0_r in Hb. congruence.
Qed.

Lemma ray_from_block (b : Board) (clr : Color) (nr nc dr dc : Z) (q : Piece)
    (dst : Square) :
  in_bounds nr nc = true -> cell b nr nc = Some q ->
  ray_from b clr nr nc dr dc dst <-> dst = (nr, nc) /\ color q <> clr.
Proof.
  intros Hin Hq. split.
  - intros (k & Hk & -> & Hway & _ & Hown).
    destruct (decide (k = 0)) as [->|Hne].
    + rewrite !Z.mul_0_l, !Z.add_0_r in *. split; [done|]. by apply Hown.
    + destruct (Hway 0) as [_ Hc]; [lia|].
      rewrite !Z.mul_0_l, !Z.add_0_r in Hc. congruence.
  - intros [-> Hcol]. exists 0. rewrite !Z.mul_0_l, !Z.add_0_r.
    split; [lia|]. split; [done|]. split; [intros j Hj; lia|].
    split; [done|]. intros q' Hq'. simpl in Hq'. congruence.
Qed.

Lemma ray_from_step (b : Board) (clr : Color) (nr nc dr dc : Z) (dst : Square) :
  in_bounds nr nc = true -> cell b nr nc = None ->
  ray_from b clr nr nc dr dc dst <->
  dst = (nr, nc) \/ ray_from b clr (nr + dr) (nc + dc) dr dc dst.
Proof.
  intros Hin Hq. split.
  - intros (k & Hk & -> & Hway & Hdst & Hown).
    destruct (decide (k = 0)) as [->|Hne].
    + left. by rewrite !Z.mul_0_l, !Z.add_0_r.
    + right. exists (k - 1). split; [lia|]. split; [f_equal; ring|].
      split; [|done]. intros j Hj. destruct (Hway (j + 1)) as [Hb Hc]; [lia|].
      replace (nr + dr + j * dr) with (nr + (j + 1) * dr) by ring.
      by replace (nc + dc + j * dc) with (nc + (j + 1) * dc) by ring.
  - intros [->|(k & Hk & -> & Hway & Hdst & Hown)].
    + exists 0. rewrite !Z.mul_0_l, !Z.add_0_r.
      split; [lia|]. split; [done|]. split; [intros j Hj; lia|].
      split; [done|]. intros q' Hq'. simpl in Hq'. congruence.
    + exists (k + 1). split; [lia|]. split; [f_equal; ring|].
      split; [|done]. intros j Hj.
      destruct (decide (j = 0)) as [->|Hne].
      * by rewrite !Z.mul_0_l, !Z.add_0_r.
      * destruct (Hway (j - 1)) as [Hb Hc]; [lia|].
        replace (nr + j * dr) with (nr + dr + (j - 1) * dr) by ring.
        by replace (nc + j * dc) with (nc + dc + (j - 1) * dc) by ring.
Qed.

Lemma gen_equiv {M} (R R' : M -> Prop) (F : list M -> Prop) :
  (forall m, R m <-> R' m) ->
  (exists new, (forall m, m ∈ new <-> R m) /\ F new) ->
  exists new, (forall m, m ∈ new <-> R' m) /\ F new.
Proof.
  intros HR (new & Hnew & HF). exists new. split; [|done].
  intros m. by rewrite Hnew, HR.
Qed.

Section Exact.
Variables (b : Board) (r c : Z) (p : Piece).
Hypothesis Hwf : wf_board b = true.

Lemma step_move_gen (dr dc : Z) :
  exists new,
    (forall m : Move, m ∈ new <->
       m.1 = (r, c) /\ step_rule b (color p) r c dr dc m.2) /\
    forall acc, step_move b r c p dr dc acc = Ok (acc ++ new).
Proof using Hwf.
  unfold step_move.
  destruct (in_bounds (r + dr) (c + dc)) eqn:Hin; simpl.
  - rewrite board_get_cell by done; cbn [bind].
    assert (Hone : forall m : Move,
              m.1 = (r, c) /\ step_rule b (color p) r c dr dc m.2 <->
              m = ((r, c), (r + dr, c + dc)) /\
              not_own b (color p) (r + dr, c + dc)).
    { intros [src dst]; simpl. unfold step_rule. split.
      - by intros (-> & -> & _ & Hown).
      - by intros ([= -> ->] & Hown). }
    destruct (cell b (r + dr) (c + dc)) as [q|] eqn:Hq.
    + destruct (color_eqb (color q) (color p)) eqn:Hc; simpl.
      * apply gen_nil. intros m [_ Hown]%Hone.
        apply (Hown q); [exact Hq | by apply color_eqb_true].
      * apply gen_one. intros m. rewrite Hone.
        split; [by intros [-> _]|]. intros ->. split; [done|].
        intros q' Hq'. simpl in Hq'. rewrite Hq in Hq'. injection Hq' as <-.
        by apply color_eqb_false.
    + apply gen_one. intros m. rewrite Hone.
      split; [by intros [-> _]|]. intros ->. split; [done|].
      intros q' Hq'. simpl in Hq'. congruence.
  - apply gen_nil. intros m (_ & Hd & Hb & _). rewrite Hd in Hb.
    simpl in Hb. congruence.
Qed.

Lemma knight_moves_gen :
  exists new,
    (forall m : Move, m ∈ new <->
       m.1 = (r, c) /\
       exists d, d ∈ jumps /\ step_rule b (color p) r c d.1 d.2 m.2) /\
    forall acc, knight_moves b r c p acc = Ok (acc ++ new).
Proof using Hwf.
  unfold knight_moves.
  eapply gen_equiv;
    [|apply (for_loop_gen
               (fun (d : Z * Z) (m : Move) =>
                  m.1 = (r, c) /\ step_rule b (color p) r c d.1 d.2 m.2))].
  - intros m. split;
      [intros (d & Hd & Hsrc & Hstep) | intros (Hsrc & d & Hd & Hstep)]; eauto.
  - intros [dr dc] _. apply step_move_gen.
Qed.

Lemma king_moves_gen :
  exists new,
    (forall m : Move, m ∈ new <->
       m.1 = (r, c) /\
       exists dr dc, dr ∈ [-1; 0; 1] /\ dc ∈ [-1; 0; 1] /\
         ~ (dr = 0 /\ dc = 0) /\ step_rule b (color p) r c dr dc m.2) /\
    forall acc, king_moves b r c p acc = Ok (acc ++ new).
Proof using Hwf.
  unfold king_moves.
  eapply gen_equiv;
    [|apply (for_loop_gen
               (fun (dr : Z) (m : Move) =>
                  m.1 = (r, c) /\
                  exists dc, dc ∈ [-1; 0; 1] /\ ~ (dr = 0 /\ dc = 0) /\
                    step_rule b (color p) r c dr dc m.2))].
  - intros m. split;
      [intros (dr & Hdr & Hsrc & dc & Hdc & Hnot & Hstep)
      |intros (Hsrc & dr & dc & Hdr & Hdc & Hnot & Hstep)]; eauto 10.
  - intros dr _.
    eapply gen_equiv;
      [|apply (for_loop_gen
                 (fun (dc : Z) (m : Move) =>
                    m.1 = (r, c) /\ ~ (dr = 0 /\ dc = 0) /\
                    step_rule b (color p) r c dr dc m.2))].
    + intros m. split;
        [intros (dc & Hdc & Hsrc & Hnot & Hstep)
        |intros (Hsrc & dc & Hdc & Hnot & Hstep)]; eauto 10.
    + intros dc _.
      assert (Hstep : ~ (dr = 0 /\ dc = 0) ->
                exists new,
                  (forall m : Move, m ∈ new <->
                     m.1 = (r, c) /\ ~ (dr = 0 /\ dc = 0) /\
                     step_rule b (color p) r c dr dc m.2) /\
                  forall acc, step_move b r c p dr dc acc = Ok (acc ++ new)).
      { intros Hnz. eapply gen_equiv; [|apply step_move_gen].
        intros m. split; [by intros [? ?] | by intros (? & _ & ?)]. }
      destruct (Z.eqb_spec dr 0) as [Hdr|Hdr], (Z.eqb_spec dc 0) as [Hdc|Hdc];
        simpl;
        [apply gen_nil; intros m (_ & Hnot & _); by apply Hnot
        | apply Hstep; lia | apply Hstep; lia | apply Hstep; lia].
Qed.

Lemma slide_ray_gen (dr dc : Z) (fuel : nat) :
  forall (nr nc : Z),
  (0 < fuel)%nat ->
  (in_bounds nr nc = true ->
   (dr <> 0 /\ steps_left dr nr < Z.of_nat fuel) \/
   (dc <> 0 /\ steps_left dc nc < Z.of_nat fuel)) ->
  exists new,
    (forall m : Move, m ∈ new <->
       m.1 = (r, c) /\ ray_from b (color p) nr nc dr dc m.2) /\
    forall acc, slide_ray fuel b r c p dr dc nr nc acc = Ok (acc ++ new).
Proof using Hwf.
  induction fuel as [|fuel IH]; intros nr nc Hpos Hfuel; [lia|].
  cbn [slide_ray]. destruct (in_bounds nr nc) eqn:Hin.
  - rewrite board_get_cell by done; cbn [bind].
    destruct (cell b nr nc) as [q|] eqn:Hq.
    + destruct (color_eqb (color q) (color p)) eqn:Hc; simpl.
      * apply gen_nil. intros m [_ Hray].
        apply (ray_from_block b _ nr nc dr dc q) in Hray as [_ Hne]; [|done..].
        by apply color_eqb_true in Hc.
      * apply gen_one. intros [src dst]; simpl.
        rewrite (ray_from_block b _ nr nc dr dc q) by done.
        apply color_eqb_false in Hc. split.
        -- by intros (-> & -> & _).
        -- by intros [= -> ->].
    + specialize (Hfuel eq_refl). pose proof Hin as Hb%in_bounds_spec.
      unfold steps_left in Hfuel.
      destruct (IH (nr + dr) (nc + dc)) as (new & Hnew & Hrun).
      * destruct (0 <? dr) eqn:?, (0 <? dc) eqn:?; lia.
      * intros Hin'%in_bounds_spec. unfold steps_left.
        destruct (0 <? dr) eqn:?, (0 <? dc) eqn:?; lia.
      * exists (((r, c), (nr, nc)) :: new). split.
        -- intros [src dst]; simpl.
           rewrite elem_of_cons, Hnew, (ray_from_step b _ nr nc) by done.
           simpl. split.
           ++ intros [[= -> ->]|[-> Hray]]; split; auto.
           ++ intros [-> [->|Hray]]; [by left | by right].
        -- intros acc. rewrite Hrun. by rewrite <- app_assoc.
  - apply gen_nil. intros m [_ Hray]. by eapply ray_from_out in Hray.
Qed.

Lemma slide_moves_gen (deltas : list (Z * Z)) :
  Forall (fun d => d.1 <> 0 \/ d.2 <> 0) deltas ->
  exists new,
    (forall m : Move, m ∈ new <->
       m.1 = (r, c) /\
       exists d, d ∈ deltas /\ ray_rule b (color p) r c d.1 d.2 m.2) /\
    forall acc, slide_moves b r c p acc deltas = Ok (acc ++ new).
Proof using Hwf.
  intros Hd. unfold slide_moves.
  eapply gen_equiv;
    [|apply (for_loop_gen
               (fun (d : Z * Z) (m : Move) =>
                  m.1 = (r, c) /\ ray_rule b (color p) r c d.1 d.2 m.2))].
  - intros m. split;
      [intros (d & Hd' & Hsrc & Hray) | intros (Hsrc & d & Hd' & Hray)]; eauto.
  - intros [dr dc] Hin. rewrite Forall_forall in Hd.
    specialize (Hd _ Hin); simpl in Hd.
    eapply gen_equiv; [|apply (slide_ray_gen dr dc ray_fuel)].
    + intros m. simpl. by rewrite ray_rule_from.
    + unfold ray_fuel; lia.
    + intros Hb%in_bounds_spec. unfold steps_left, ray_fuel.
      destruct (0 <? dr) eqn:?, (0 <? dc) eqn:?; lia.
Qed.

Lemma pawn_moves_gen :
  exists new,
    (forall m : Move, m ∈ new <-> m.1 = (r, c) /\ pawn_rule b p r c m.2) /\
    forall acc, pawn_moves b r c p acc = Ok (acc ++ new).
Proof using Hwf.
  unfold pawn_moves, pawn_rule.
  set (dir := if color_eqb (color p) White then -1 else 1).
  set (start_row := if color_eqb (color p) White then 6 else 1).
  assert (Hfwd : exists new1,
    (forall m : Move, m ∈ new1 <->
       m.1 = (r, c) /\
       ((m.2 = (r + dir, c) /\ in_bounds (r + dir) c = true /\
         cell b (r + dir) c = None) \/
        (m.2 = (r + 2 * dir, c) /\ r = start_row /\
         in_bounds (r + dir) c = true /\ cell b (r + dir) c = None /\
         cell b (r + 2 * dir) c = None))) /\
    forall acc,
      (if in_bounds (r + dir) c then
         let! q := board_get b (r + dir) c in
         match q with
         | None =>
             if r =? start_row then
               let! q2 := board_get b (r + 2 * dir) c in
               match q2 with
               | None => Ok ((acc ++ [((r, c), (r + dir, c))])
                               ++ [((r, c), (r + 2 * dir, c))])
               | Some _ => Ok (acc ++ [((r, c), (r + dir, c))])
               end
             else Ok (acc ++ [((r, c), (r + dir, c))])
         | Some _ => Ok acc
         end
       else Ok acc) = Ok (acc ++ new1)).
  { destruct (in_bounds (r + dir) c) eqn:Hin.
    - rewrite board_get_cell by done; cbn [bind].
      destruct (cell b (r + dir) c) as [q|] eqn:Hq.
      + apply gen_nil. intros m (_ & [(_ & _ & ?)|(_ & _ & _ & ? & _)]); done.
      + destruct (Z.eqb_spec r start_row) as [Hstart|Hstart].
        * assert (in_bounds (r + 2 * dir) c = true) as Hin2.
          { apply in_bounds_spec in Hin. apply in_bounds_spec.
            subst dir start_row. destruct (color_eqb (color p) White); lia. }
          rewrite board_get_cell by done; cbn [bind].
          destruct (cell b (r + 2 * dir) c) as [q2|] eqn:Hq2.
          -- apply gen_one. intros [src dst]; simpl. split.
             ++ intros (-> & [(-> & _)|(_ & _ & _ & _ & ?)]); done.
             ++ intros [= -> ->]. split; [done|]. by left.
          -- exists [((r, c), (r + dir, c)); ((r, c), (r + 2 * dir, c))].
             split; [|intros acc; by rewrite <- app_assoc].
             intros [src dst]; simpl.
             rewrite elem_of_cons, list_elem_of_singleton. split.
             ++ intros [[= -> ->]|[= -> ->]]; (split; [done|]);
                  [by left | by right].
             ++ intros (-> & [(-> & _)|(-> & _)]); [by left | by right].
        * apply gen_one. intros [src dst]; simpl. split.
          -- intros (-> & [(-> & _)|(_ & ? & _)]); done.
          -- intros [= -> ->]. split; [done|]. by left.
    - apply gen_nil. intros m (_ & [(_ & ? & _)|(_ & _ & ? & _)]); congruence. }
  destruct Hfwd as (new1 & Hnew1 & Hrun1).
  destruct (for_loop_gen
              (fun (dc : Z) (m : Move) =>
                 m.1 = (r, c) /\ m.2 = (r + dir, c + dc) /\
                 in_bounds (r + dir) (c + dc) = true /\
                 exists q, cell b (r + dir) (c + dc) = Some q /\
                           color q <> color p)
              [-1; 1]
              (fun dc moves =>
                 let nc := c + dc in
                 let nr := r + dir in
                 if in_bounds nr nc then
                   let! q := board_get b nr nc in
                   match q with
                   | Some q =>
                       if negb (color_eqb (color q) (color p))
                       then Ok (moves ++ [((r, c), (nr, nc))])
                       else Ok moves
                   | None => Ok moves
                   end
                 else Ok moves)) as (new2 & Hnew2 & Hrun2).
  { intros dc _. cbv zeta.
    destruct (in_bounds (r + dir) (c + dc)) eqn:Hin.
    - rewrite board_get_cell by done; cbn [bind].
      destruct (cell b (r + dir) (c + dc)) as [q|] eqn:Hq.
      + destruct (color_eqb (color q) (color p)) eqn:Hc; simpl.
        * apply gen_nil. intros m (_ & _ & _ & q' & [= <-] & Hne).
          by apply color_eqb_true in Hc.
        * apply gen_one. intros [src dst]; simpl. split.
          -- by intros (-> & -> & _).
          -- intros [= -> ->]. split; [done|]. split; [done|].
             split; [done|]. exists q.
             split; [done|]. by apply color_eqb_false.
      + apply gen_nil. intros m (_ & _ & _ & q' & ? & _). done.
    - apply gen_nil. intros m (_ & _ & ? & _). congruence. }
  exists (new1 ++ new2). split.
  - intros m. rewrite elem_of_app, Hnew1, Hnew2. split.
    + intros [(Hsrc & [H1|H2])|(dc & Hdc & Hsrc & Hdst & Hin & Hq)].
      * split; [done|]. by left.
      * split; [done|]. right. by left.
      * split; [done|]. right. right. exists dc.
        split; [|done].
        apply elem_of_cons in Hdc as [->|Hdc%list_elem_of_singleton]; auto.
    + intros (Hsrc & [H1|[H2|(dc & Hdc & Hdst & Hin & Hq)]]).
      * left. split; [done|]. by left.
      * left. split; [done|]. by right.
      * right. exists dc. split; [|done].
        destruct Hdc as [->| ->]; [left | right; left].
  - intros acc. rewrite Hrun1; cbn [bind]. rewrite Hrun2.
    by rewrite app_assoc.
Qed.

Lemma piece_moves_gen :
  exists new,
    (forall m : Move, m ∈ new <-> m.1 = (r, c) /\ reach b p r c m.2) /\
    forall acc,
      match kind p with
      | Pawn => pawn_moves b r c p acc
      | Knight => knight_moves b r c p acc
      | Bishop => bishop_moves b r c p acc
      | Rook => rook_moves b r c p acc
      | Queen => queen_moves b r c p acc
      | King => king_moves b r c p acc
      end = Ok (acc ++ new).
Proof using Hwf.
  unfold reach. destruct (kind p).
  - apply king_moves_gen.
  - apply slide_moves_gen. repeat constructor; simpl; lia.
  - apply slide_moves_gen. repeat constructor; simpl; lia.
  - apply slide_moves_gen. repeat constructor; simpl; lia.
  - apply knight_moves_gen.
  - apply pawn_moves_gen.
Qed.

End Exact.

Lemma generate_pseudo_legal_moves_exact (b : Board) (clr : Color) :
  wf_board b = true ->
  exists moves, generate_pseudo_legal_moves b clr = Ok moves /\
    forall m : Move, m ∈ moves <->
      in_bounds m.1.1 m.1.2 = true /\
      exists p, cell b m.1.1 m.1.2 = Some p /\ color p = clr /\
                reach b p m.1.1 m.1.2 m.2.
Proof.
  intros Hwf. unfold generate_pseudo_legal_moves.
  destruct (for_loop_gen
              (fun (r : Z) (m : Move) =>
                 exists c, c ∈ range COLS /\ m.1 = (r, c) /\
                   exists p, cell b r c = Some p /\ color p = clr /\
                             reach b p r c m.2)
              (range ROWS)
              (fun r moves =>
                 for_loop (range COLS) (fun c moves =>
                   let! p := board_get b r c in
                   match p with
                   | None => Ok moves
                   | Some p =>
                       if negb (color_eqb (color p) clr) then Ok moves
                       else
                         match kind p with
                         | Pawn => pawn_moves b r c p moves
                         | Knight => knight_moves b r c p moves
                         | Bishop => bishop_moves b r c p moves
                         | Rook => rook_moves b r c p moves
                         | Queen => queen_moves b r c p moves
                         | King => king_moves b r c p moves
                         end
                   end) moves)) as (new & Hnew & Hrun).
  { intros r Hr.
    apply (for_loop_gen
             (fun (c : Z) (m : Move) =>
                m.1 = (r, c) /\
                exists p, cell b r c = Some p /\ color p = clr /\
                          reach b p r c m.2)).
    intros c Hc. rewrite board_get_cell by (by try apply range_in_bounds).
    cbn [bind]. destruct (cell b r c) as [p|] eqn:Hp.
    - destruct (color_eqb (color p) clr) eqn:Hcol; simpl.
      + apply color_eqb_true in Hcol.
        eapply gen_equiv; [|apply (piece_moves_gen b r c p Hwf)].
        intros m. split.
        * intros [Hsrc Hreach]. split; [done|]. by exists p.
        * intros (Hsrc & p' & [= <-] & _ & Hreach). done.
      + apply gen_nil. intros m (_ & p' & [= <-] & Hcol' & _).
        by apply color_eqb_false in Hcol.
    - apply gen_nil. intros m (_ & p' & ? & _). done. }
  exists new. split; [by rewrite Hrun|].
  intros [[r c] dst]; simpl. rewrite Hnew. split.
  - intros (r' & Hr & c' & Hc & [= -> ->] & Hp).
    split; [by apply range_in_bounds | done].
  - intros ([Hr Hc]%in_bounds_spec & Hp). exists r.
    split; [apply elem_of_seqZ; unfold ROWS; lia|]. exists c.
    split; [apply elem_of_seqZ; unfold COLS; lia | done].
Qed.

Lemma square_eqb_eq (a b : Z * Z) : square_eqb a b = true <-> a = b.
Proof.
  unfold square_eqb. destruct a, b; simpl.
  rewrite andb_true_iff, !Z.eqb_eq. split; [by intros [-> ->] | by intros [= -> ->]].
Qed.

Lemma is_square_attacked_exact (b : Board) (target : Z * Z) (clr : Color) :
  wf_board b = true ->
  exists v, is_square_attacked b target clr = Ok v /\
    (v = true <->
     exists r c p, in_bounds r c = true /\ cell b r c = Some p /\
                   color p = clr /\ reach b p r c target).
Proof.
  intros Hwf.
  destruct (generate_pseudo_legal_moves_exact b clr Hwf) as (moves & Hgen & Hin).
  unfold is_square_attacked. rewrite Hgen; cbn [bind].
  eexists; split; [done|].
  rewrite existsb_exists. split.
  - intros ([[r c] dst] & Hm%list_elem_of_In & Heq%square_eqb_eq).
    simpl in Heq. subst dst. apply Hin in Hm as (Hb & p & Hp & Hcol & Hreach).
    by exists r, c, p.
  - intros (r & c & p & Hb & Hp & Hcol & Hreach).
    exists ((r, c), target). split.
    + apply list_elem_of_In, Hin. simpl. split; [done|]. by exists p.
    + by apply square_eqb_eq.
Qed.

(** ** Coordinates outside [0, 8): Python's index rules in [make_move] *)

Lemma py_ok_mod (i : Z) : py_ok i = true -> 0 <= i mod 8 < 8.
Proof. intros _. apply Z.mod_pos_bound. lia. Qed.

Lemma py_index_mod (i : Z) :
  py_ok i = true -> py_index 8 i = Ok (Z.to_nat (i mod 8)).
Proof.
  unfold py_ok, py_index. intros [Hlo Hhi]%andb_true_iff.
  apply Z.leb_le in Hlo. apply Z.ltb_lt in Hhi.
  destruct (Z.leb_spec 0 i).
  - destruct (Z.ltb_spec i (Z.of_nat 8)); [|lia].
    by rewrite Z.mod_small by lia.
  - destruct (Z.leb_spec 0 (Z.of_nat 8 + i)); [|lia].
    do 2 f_equal. apply (Z.mod_unique i 8 (-1)); lia.
Qed.

Lemma py_index_bad (i : Z) :
  py_ok i = false -> py_index 8 i = Raise IndexError.
Proof.
  unfold py_ok, py_index. intros Hbad%andb_false_iff.
  rewrite Z.leb_gt, Z.ltb_ge in Hbad.
  destruct (Z.leb_spec 0 i).
  - destruct (Z.ltb_spec i (Z.of_nat 8)); [lia | done].
  - destruct (Z.leb_spec 0 (Z.of_nat 8 + i)); [lia | done].
Qed.

Lemma getitem_mod {A} (l : list A) (i : Z) :
  length l = 8%nat -> py_ok i = true -> getitem l i = getitem l (i mod 8).
Proof.
  intros Hlen Hi. unfold getitem. rewrite Hlen, py_index_mod by done.
  rewrite py_index_mod.
  - by rewrite Z.mod_mod by lia.
  - pose proof (py_ok_mod i Hi). unfold py_ok. lia.
Qed.

Lemma setitem_mod {A} (l : list A) (i : Z) (x : A) :
  length l = 8%nat -> py_ok i = true -> setitem l i x = setitem l (i mod 8) x.
Proof.
  intros Hlen Hi. unfold setitem. rewrite Hlen, py_index_mod by done.
  rewrite py_index_mod.
  - by rewrite Z.mod_mod by lia.
  - pose proof (py_ok_mod i Hi). unfold py_ok. lia.
Qed.

Lemma getitem_bad {A} (l : list A) (i : Z) :
  length l = 8%nat -> py_ok i = false -> getitem l i = Raise IndexError.
Proof. intros Hlen Hi. unfold getitem. by rewrite Hlen, py_index_bad. Qed.

Lemma setitem_bad {A} (l : list A) (i : Z) (x : A) :
  length l = 8%nat -> py_ok i = false -> setitem l i x = Raise IndexError.
Proof. intros Hlen Hi. unfold setitem. by rewrite Hlen, py_index_bad. Qed.

Lemma in_bounds_mod (r c : Z) :
  py_ok r = true -> py_ok c = true -> in_bounds (r mod 8) (c mod 8) = true.
Proof.
  intros Hr%py_ok_mod Hc%py_ok_mod. apply in_bounds_spec. lia.
Qed.

Lemma getitem_row (b : Board) (r : Z) :
  wf_board b = true -> py_ok r = true ->
  exists row, getitem b r = Ok row /\ length row = 8%nat.
Proof.
  intros [Hl Hrows]%wf_board_spec Hr.
  rewrite getitem_mod by done. pose proof (py_ok_mod r Hr).
  destruct (getitem_in_range b (r mod 8)) as (row & Hrow & Hg); [lia|].
  exists row. split; [done|]. eauto.
Qed.

Lemma board_get_mod (b : Board) (r c : Z) :
  wf_board b = true -> py_ok r = true -> py_ok c = true ->
  board_get b r c = Ok (cell b (r mod 8) (c mod 8)).
Proof.
  intros Hwf Hr Hc.
  rewrite <- board_get_cell by (by try apply in_bounds_mod).
  pose proof Hwf as [Hl _]%wf_board_spec.
  destruct (getitem_row b r Hwf Hr) as (row & Hg & Hlen).
  unfold board_get. rewrite <- (getitem_mod b r) by done. rewrite Hg.
  cbn [bind]. by apply getitem_mod.
Qed.

Lemma board_get_bad (b : Board) (r c : Z) :
  wf_board b = true -> py_ok r && py_ok c = false ->
  board_get b r c = Raise IndexError.
Proof.
  intros Hwf Hbad. pose proof Hwf as [Hl _]%wf_board_spec. unfold board_get.
  destruct (py_ok r) eqn:Hr.
  - destruct (getitem_row b r Hwf Hr) as (row & -> & Hlen). cbn [bind].
    by apply getitem_bad.
  - by rewrite getitem_bad.
Qed.

Lemma board_set_mod (b : Board) (r c : Z) (x : option Piece) :
  wf_board b = true -> py_ok r = true -> py_ok c = true ->
  board_set b r c x = board_set b (r mod 8) (c mod 8) x.
Proof.
  intros Hwf Hr Hc. pose proof Hwf as [Hl _]%wf_board_spec.
  destruct (getitem_row b r Hwf Hr) as (row & Hg & Hlen).
  unfold board_set. rewrite <- (getitem_mod b r) by done. rewrite Hg.
  cbn [bind]. rewrite <- (setitem_mod row c) by done.
  destruct (setitem row c x) as [row'|e]; [|done]. cbn [bind].
  by apply setitem_mod.
Qed.

Lemma board_set_bad (b : Board) (r c : Z) (x : option Piece) :
  wf_board b = true -> py_ok r && py_ok c = false ->
  board_set b r c x = Raise IndexError.
Proof.
  intros Hwf Hbad. pose proof Hwf as [Hl _]%wf_board_spec. unfold board_set.
  destruct (py_ok r) eqn:Hr.
  - destruct (getitem_row b r Hwf Hr) as (row & -> & Hlen). cbn [bind].
    by rewrite setitem_bad.
  - by rewrite getitem_bad.
Qed.

Lemma make_move_cells_py (b : Board) (r1 c1 r2 c2 : Z) :
  wf_board b = true ->
  py_ok r1 = true -> py_ok c1 = true -> py_ok r2 = true -> py_ok c2 = true ->
  exists nb, make_move b ((r1, c1), (r2, c2)) = Ok nb /\ wf_board nb = true /\
    forall r c, in_bounds r c = true ->
      cell nb r c =
        if decide ((r, c) = (r2 mod 8, c2 mod 8))
        then landed (cell b (r1 mod 8) (c1 mod 8)) r2
        else if decide ((r, c) = (r1 mod 8, c1 mod 8)) then None
        else cell b r c.
Proof.
  intros Hwf Hr1 Hc1 Hr2 Hc2. unfold make_move. rewrite clone_board_id.
  pose proof (in_bounds_mod r1 c1 Hr1 Hc1) as H1.
  pose proof (in_bounds_mod r2 c2 Hr2 Hc2) as H2.
  rewrite board_get_mod by done; cbn [bind].
  rewrite board_set_mod by done.
  destruct (board_set_cell b _ _ None Hwf H1) as (b1 & -> & Hwf1 & Hb1).
  cbn [bind]. rewrite board_set_mod by done.
  destruct (board_set_cell b1 _ _ (cell b (r1 mod 8) (c1 mod 8)) Hwf1 H2)
    as (b2 & -> & Hwf2 & Hb2).
  cbn [bind].
  assert (Hcells2 : forall r c, in_bounds r c = true ->
            cell b2 r c =
              if decide ((r, c) = (r2 mod 8, c2 mod 8))
              then cell b (r1 mod 8) (c1 mod 8)
              else if decide ((r, c) = (r1 mod 8, c1 mod 8)) then None
              else cell b r c).
  { intros r c Hin. rewrite Hb2 by done. case_decide; [done|]. by apply Hb1. }
  destruct (cell b (r1 mod 8) (c1 mod 8)) as [[col k]|] eqn:Hpiece; simpl;
    [|exists b2; split; [done|]; split; [done|]; exact Hcells2].
  destruct (kind_eqb k Pawn) eqn:Hk; simpl;
    [|exists b2; split; [done|]; split; [done|]; exact Hcells2].
  rewrite !(board_set_mod b2) by done.
  destruct (board_set_cell b2 _ _ (Some (mkPiece White Queen)) Hwf2 H2)
    as (bw & Hsetw & Hwfw & Hbw).
  destruct (board_set_cell b2 _ _ (Some (mkPiece Black Queen)) Hwf2 H2)
    as (bb & Hsetb & Hwfb & Hbb).
  unfold ROWS.
  destruct col; simpl; destruct (r2 =? 0) eqn:E0, (r2 =? 8 - 1) eqn:E7;
    simpl; try (apply Z.eqb_eq in E0; apply Z.eqb_eq in E7; lia);
    rewrite ?Hsetw, ?Hsetb; cbn [bind];
    rewrite ?(board_set_mod b2) by done; rewrite ?Hsetb; cbn [bind];
    first [ exists b2; split; [done|]; split; [done|]; exact Hcells2
          | eexists; split; [done|]; split; [done|];
            intros r c Hin; rewrite ?Hbw, ?Hbb by done;
            case_decide; [done|]; rewrite Hcells2 by done;
            by rewrite decide_False by done ].
Qed.

Lemma make_move_bad (b : Board) (r1 c1 r2 c2 : Z) :
  wf_board b = true ->
  py_ok r1 && py_ok c1 && py_ok r2 && py_ok c2 = false ->
  make_move b ((r1, c1), (r2, c2)) = Raise IndexError.
Proof.
  intros Hwf Hbad. unfold make_move. rewrite clone_board_id.
  destruct (py_ok r1 && py_ok c1) eqn:H1.
  - apply andb_true_iff in H1 as [Hr1 Hc1].
    rewrite board_get_mod by done; cbn [bind].
    rewrite board_set_mod by done.
    destruct (board_set_cell b _ _ None Hwf (in_bounds_mod r1 c1 Hr1 Hc1))
      as (b1 & -> & Hwf1 & _).
    cbn [bind]. rewrite board_set_bad; [done | done |].
    simpl in Hbad. by destruct (py_ok r2), (py_ok c2).
  - by rewrite board_get_bad.
Qed.

(** ** What a generated move does to the board and to the material *)

Lemma pseudo_ok_distinct (b : Board) (clr : Color) (m : Move) :
  pseudo_ok b clr m -> m.1 <> m.2.
Proof.
  intros (_ & _ & (p & Hp & Hcol) & (q & Hq & Hown)) Heq.
  destruct m as [[r1 c1] [r2 c2]]; simpl in *. injection Heq as <- <-.
  rewrite Hp in Hq. injection Hq as <-. by apply (Hown p).
Qed.

Lemma legal_move_applies (b : Board) (clr : Color) (legal : list Move)
    (m : Move) :
  wf_board b = true -> generate_legal_moves b clr = Ok legal -> m ∈ legal ->
  pseudo_ok b clr m /\
  exists nb, make_move b m = Ok nb /\ wf_board nb = true /\
             is_in_check nb clr = Ok false.
Proof.
  intros Hwf Hgen Hm.
  destruct (generate_legal_moves_filter b clr Hwf) as (pseudo & _ & Hok & Hgen').
  rewrite Hgen in Hgen'. injection Hgen' as ->.
  apply elem_of_List_filter in Hm as [Hm Hk].
  rewrite Forall_forall in Hok. specialize (Hok _ Hm). split; [done|].
  apply keeps_true in Hk as (nb & Hnb & Hchk).
  destruct (pseudo_ok_make_move b clr m Hwf Hok) as (nb' & Hnb' & Hwf').
  exists nb. split; [done|]. split; [congruence | done].
Qed.

Lemma piece_score_sign (p : Piece) :
  piece_score (Some p) = sign_of (color p) * PIECE_VALUES (kind p).
Proof.
  unfold piece_score, sign_of. destruct (color_eqb (color p) White); lia.
Qed.

Lemma landed_score (p : Piece) (r2 : Z) :
  piece_score (landed (Some p) r2) =
  piece_score (Some p) + sign_of (color p) * (if promotes p r2 then 8 else 0).
Proof.
  unfold landed. fold (promotes p r2). unfold promotes.
  destruct (kind_eqb (kind p) Pawn) eqn:Hk; cbn [andb];
    [|rewrite Z.mul_0_r; lia].
  apply bool_decide_eq_true in Hk.
  destruct (_ || _); [|rewrite Z.mul_0_r; lia].
  rewrite !piece_score_sign. cbn [color kind]. rewrite Hk.
  cbn [PIECE_VALUES]. lia.
Qed.

Lemma pseudo_move_material (b : Board) (clr : Color) (r1 c1 r2 c2 : Z) :
  wf_board b = true -> pseudo_ok b clr ((r1, c1), (r2, c2)) ->
  exists p nb e,
    board_get b r1 c1 = Ok (Some p) /\
    make_move b ((r1, c1), (r2, c2)) = Ok nb /\
    evaluate_material b = Ok e /\
    evaluate_material nb =
      Ok (e + sign_of clr * (captured_value (cell b r2 c2)
                             + (if promotes p r2 then 8 else 0))).
Proof.
  intros Hwf Hok. pose proof (pseudo_ok_distinct _ _ _ Hok) as Hne.
  destruct Hok as (H1 & H2 & (p & Hp & Hcol) & (q & Hq & Hown)).
  simpl in *.
  destruct (make_move_material b r1 c1 r2 c2 Hwf H1 H2 Hne) as (nb & Hmv & Heval).
  exists p, nb, (msum (cell b)). split; [done|]. split; [done|].
  split; [by apply evaluate_material_sum|].
  rewrite Heval. f_equal.
  assert (cell b r1 c1 = Some p) as -> by (unfold cell; by rewrite Hp).
  assert (cell b r2 c2 = q) as -> by (unfold cell; by rewrite Hq).
  rewrite landed_score, Hcol.
  destruct q as [q|]; simpl.
  - specialize (Hown q eq_refl). unfold sign_of, color_eqb.
    destruct clr, (color q); try done; simpl;
      destruct (promotes p r2); lia.
  - lia.
Qed.

Lemma List_filter_sublist {A} (f : A -> bool) (l : list A) :
  List.filter f l `sublist_of` l.
Proof.
  induction l as [|x l IH]; simpl; [constructor|].
  destruct (f x); by constructor.
Qed.

(** ** The controller *)

Lemma check_game_end_frame (g : Game) :
  wf_board (board g) = true ->
  exists g', check_game_end g = Ok g' /\
    board g' = board g /\ turn g' = turn g /\ selected g' = selected g /\
    legal_for_selected g' = legal_for_selected g /\
    (game_over g = true -> game_over g' = true) /\
    (game_over g' = true ->
     game_over g = true \/ generate_legal_moves (board g) (turn g) = Ok []).
Proof.
  intros Hwf.
  destruct (generate_legal_moves_filter _ (turn g) Hwf) as (pseudo & _ & _ & Hgen).
  destruct (is_in_check_total _ (turn g) Hwf) as (chk & Hchk).
  unfold check_game_end. rewrite Hgen, Hchk; cbn [bind].
  destruct (List.filter (keeps (board g) (turn g)) pseudo) as [|m legal].
  - destruct chk; eexists; (split; [done|]); simpl; auto 10.
  - exists g. repeat split; auto.
Qed.

Lemma update_legals_spec (g : Game) (r c : Z) :
  wf_board (board g) = true -> selected g = Some (r, c) ->
  in_bounds r c = true ->
  exists legal g',
    generate_legal_moves (board g) (turn g) = Ok legal /\
    update_legals_for_selected g = Ok g' /\
    board g' = board g /\ turn g' = turn g /\ selected g' = Some (r, c) /\
    game_over g' = game_over g /\ result_text g' = result_text g /\
    forall d, d ∈ legal_for_selected g' <-> ((r, c), d) ∈ legal.
Proof.
  intros Hwf Hsel Hin.
  destruct (generate_legal_moves_filter _ (turn g) Hwf) as (pseudo & _ & Hok & Hgen).
  set (legal := List.filter (keeps (board g) (turn g)) pseudo) in *.
  assert (Hsrc : forall d, ((r, c), d) ∈ legal ->
            exists p, cell (board g) r c = Some p /\ color p = turn g).
  { intros d [Hd _]%elem_of_List_filter. rewrite Forall_forall in Hok.
    destruct (Hok _ Hd) as (_ & _ & (p & Hp & Hcol) & _). simpl in Hp.
    exists p. split; [|done]. unfold cell. by rewrite Hp. }
  exists legal. unfold update_legals_for_selected.
  cbn [set_selection selected board turn]. rewrite Hsel.
  rewrite board_get_cell by done; cbn [bind].
  destruct (cell (board g) r c) as [p|] eqn:Hp.
  - destruct (color_eqb (color p) (turn g)) eqn:Hcol; simpl.
    + rewrite Hgen; cbn [bind]. eexists. split; [done|]. split; [done|].
      simpl. repeat split; try done.
      * intros (m & -> & [Hm Hs%square_eqb_eq]%elem_of_List_filter)%list_elem_of_fmap.
        destruct m as [src dst]; simpl in *. by subst src.
      * intros Hd. apply list_elem_of_fmap. exists ((r, c), d).
        split; [done|]. apply elem_of_List_filter. split; [done|].
        by apply square_eqb_eq.
    + eexists. split; [done|]. split; [done|]. simpl. repeat split; try done.
      * by intros ?%elem_of_nil.
      * intros (p' & [= <-] & Hcol')%Hsrc. by apply color_eqb_false in Hcol.
  - eexists. split; [done|]. split; [done|]. simpl. repeat split; try done.
    + by intros ?%elem_of_nil.
    + intros (p' & ? & _)%Hsrc. done.
Qed.

Lemma apply_move_legal (g : Game) (legal : list Move) (m : Move) :
  wf_board (board g) = true ->
  generate_legal_moves (board g) (turn g) = Ok legal -> m ∈ legal ->
  exists nb g',
    make_move (board g) m = Ok nb /\ apply_move g m = Ok g' /\
    board g' = nb /\ turn g' = opponent (turn g) /\
    selected g' = None /\ legal_for_selected g' = [] /\
    wf_board nb = true /\ is_in_check nb (turn g) = Ok false /\
    (game_over g = true -> game_over g' = true) /\
    (game_over g' = true ->
     game_over g = true \/
     generate_legal_moves nb (opponent (turn g)) = Ok []).
Proof.
  intros Hwf Hgen Hm.
  destruct (legal_move_applies _ _ _ _ Hwf Hgen Hm) as (_ & nb & Hnb & Hwfnb & Hchk).
  set (g1 := mkGame nb (opponent (turn g)) None [] (game_over g) (result_text g)).
  destruct (check_game_end_frame g1 Hwfnb)
    as (g' & Hend & Hb & Ht & Hs & Hl & Hover & Hover').
  exists nb, g'. unfold apply_move. rewrite Hnb; cbn [bind].
  fold g1. rewrite Hend. by repeat split.
Qed.

Lemma square_at_pixel_Some (pos : Z * Z) (r c : Z) :
  square_at_pixel pos = Some (r, c) ->
  in_bounds r c = true /\ r = pos.2 / TILE_SIZE /\ c = pos.1 / TILE_SIZE.
Proof.
  destruct pos as [x y]. unfold square_at_pixel.
  destruct (in_bounds (y / TILE_SIZE) (x / TILE_SIZE)) eqn:Hin; [|done].
  by intros [= <- <-].
Qed.

Lemma existsb_square (sq : Z * Z) (l : list (Z * Z)) :
  existsb (square_eqb sq) l = true <-> sq ∈ l.
Proof.
  rewrite existsb_exists. split.
  - intros (x & Hx%list_elem_of_In & ->%square_eqb_eq). done.
  - intros Hin. exists sq. split; [by apply list_elem_of_In|].
    by apply square_eqb_eq.
Qed.

Lemma select_keeps_inv (g : Game) (r c : Z) :
  wf_board (board g) = true -> in_bounds r c = true ->
  exists g',
    update_legals_for_selected
      (set_selection g (Some (r, c)) (legal_for_selected g)) = Ok g' /\
    ctl_inv g' /\ board g' = board g /\ turn g' = turn g /\
    game_over g' = game_over g /\ result_text g' = result_text g.
Proof.
  intros Hwf Hin.
  destruct (update_legals_spec
              (set_selection g (Some (r, c)) (legal_for_selected g)) r c)
    as (legal & g' & Hgen & Hrun & Hb & Ht & Hs & Ho & Hr & Hl); [done..|].
  simpl in *. exists g'. split; [done|]. split; [|done].
  split; [by rewrite Hb|]. rewrite Hs. intros d Hd%Hl.
  exists legal. by rewrite Hb, Ht.
Qed.

Lemma ai_move_black (rnd : nat) (g : Game) :
  wf_board (board g) = true -> game_over g = false -> turn g = Black ->
  exists legal g',
    generate_legal_moves (board g) Black = Ok legal /\
    ai_move_if_needed rnd g = Ok g' /\
    selected g' = selected g /\
    legal_for_selected g' = legal_for_selected g /\
    wf_board (board g') = true /\
    match legal with
    | [] => board g' = board g /\ turn g' = Black /\ game_over g' = true
    | _ :: _ =>
        exists m, m ∈ legal /\
          ai_choose_move rnd (board g) Black = Ok (Some m) /\
          make_move (board g) m = Ok (board g') /\ turn g' = White /\
          is_in_check (board g') Black = Ok false
    end.
Proof.
  intros Hwf Hover Hturn.
  destruct (ai_choose_move_spec (board g) Black Hwf) as (legal & Hgen & Hspec).
  exists legal. unfold ai_move_if_needed. rewrite Hover, Hturn.
  change (color_eqb Black Black) with true. cbv iota.
  destruct legal as [|m0 legal'].
  - rewrite Hspec; cbn [bind].
    destruct (is_in_check_total (board g) Black Hwf) as (chk & Hchk).
    unfold check_game_end. rewrite Hturn, Hgen, Hchk; cbn [bind].
    destruct chk; eexists; (split; [done|]); (split; [done|]); simpl;
      by repeat split.
  - destruct Hspec as (s & best & Hbest & Hne & _ & Hai).
    destruct (random_choice_index rnd best Hne) as (m & Hin & Hm).
    apply list_elem_of_lookup_2 in Hin. rewrite Hbest in Hin.
    apply elem_of_List_filter in Hin as [Hin _].
    rewrite Hai, Hm; cbn [bind].
    destruct (legal_move_applies _ _ _ _ Hwf Hgen Hin) as (_ & nb & Hnb & Hwfnb & Hchk).
    rewrite Hnb; cbn [bind].
    set (g1 := mkGame nb White (selected g) (legal_for_selected g)
                 false (result_text g)).
    destruct (check_game_end_frame g1 Hwfnb) as (g' & Hend & Hb & Ht & Hs & Hl & _).
    exists g'. split; [done|]. split; [done|].
    subst g1. cbn [board turn selected legal_for_selected] in Hb, Ht, Hs, Hl.
    split; [done|]. split; [done|]. split; [by rewrite Hb|].
    exists m. rewrite Hb. by repeat split.
Qed.

(** * Further theorems *)

(** X1: on an 8x8 board [find_king] returns the first square, in row-major
    order, that holds a king of the given colour, and none exactly when no
    square holds one. *)
Theorem find_king_first_in_scan (b : Board) (clr : Color) :
  wf_board b = true ->
  (exists r c, in_bounds r c = true /\ find_king b clr = Ok (Some (r, c)) /\
     board_get b r c = Ok (Some (mkPiece clr King)) /\
     forall r' c', in_bounds r' c' = true ->
       (r' < r \/ (r' = r /\ c' < c)) ->
       board_get b r' c' <> Ok (Some (mkPiece clr King))) \/
  (find_king b clr = Ok None /\
   forall r' c', in_bounds r' c' = true ->
     board_get b r' c' <> Ok (Some (mkPiece clr King))).
Proof.
  intros Hwf.
  assert (Hno : forall r c, in_bounds r c = true ->
            is_king_of clr (cell b r c) = false ->
            board_get b r c <> Ok (Some (mkPiece clr King))).
  { intros r c Hin Hk. rewrite board_get_cell by done. intros [= Heq].
    apply is_king_of_true in Heq. congruence. }
  destruct (find_king_scan b clr Hwf)
    as [(r & c & Hin & Hf & Hk & Hbefore)|[Hf Hnone]].
  - left. exists r, c. split; [done|]. split; [done|]. split.
    + rewrite board_get_cell by done. f_equal. by apply is_king_of_true.
    + intros r' c' Hin' Hlt. apply Hno; [done|]. by apply Hbefore.
  - right. split; [done|]. intros r' c' Hin'. apply Hno; [done|].
    by apply Hnone.
Qed.

Lemma find_king_first_in_scan_witness :
  wf_board start_position = true /\
  ((exists r c, in_bounds r c = true /\
      find_king start_position White = Ok (Some (r, c)) /\
      board_get start_position r c = Ok (Some (mkPiece White King)) /\
      forall r' c', in_bounds r' c' = true ->
        (r' < r \/ (r' = r /\ c' < c)) ->
        board_get start_position r' c' <> Ok (Some (mkPiece White King))) \/
   (find_king start_position White = Ok None /\
    forall r' c', in_bounds r' c' = true ->
      board_get start_position r' c' <> Ok (Some (mkPiece White King)))).
Proof.
  split; [reflexivity|].
  apply (find_king_first_in_scan start_position White). reflexivity.
Defined.

(** X2: on an 8x8 board [generate_pseudo_legal_moves] returns exactly the
    moves the movement rules give: a move is in the list if and only if its
    source is on the board, holds a piece of the given colour, and that
    piece reaches the destination by the rule of its kind (pawn step, double
    step and capture, knight jump, king step, or a slide along an empty
    way). *)
Theorem pseudo_legal_moves_exact (b : Board) (clr : Color) :
  wf_board b = true ->
  exists moves, generate_pseudo_legal_moves b clr = Ok moves /\
    forall r1 c1 dst, ((r1, c1), dst) ∈ moves <->
      in_bounds r1 c1 = true /\
      exists p, board_get b r1 c1 = Ok (Some p) /\ color p = clr /\
                reach b p r1 c1 dst.
Proof.
  intros Hwf.
  destruct (generate_pseudo_legal_moves_exact b clr Hwf) as (moves & Hgen & Hin).
  exists moves. split; [done|]. intros r1 c1 dst. rewrite Hin. simpl.
  split; intros (Hb & p & Hp & Hrest); (split; [done|]); exists p;
    (split; [|done]).
  - rewrite board_get_cell by done. by f_equal.
  - rewrite board_get_cell in Hp by done. by injection Hp.
Qed.

Lemma pseudo_legal_moves_exact_witness :
  wf_board knight_takes_knight = true /\
  exists moves, generate_pseudo_legal_moves knight_takes_knight White = Ok moves /\
    forall r1 c1 dst, ((r1, c1), dst) ∈ moves <->
      in_bounds r1 c1 = true /\
      exists p, board_get knight_takes_knight r1 c1 = Ok (Some p) /\
                color p = White /\ reach knight_takes_knight p r1 c1 dst.
Proof.
  split; [reflexivity|].
  apply (pseudo_legal_moves_exact knight_takes_knight White). reflexivity.
Defined.

(** X3: on an 8x8 board [is_square_attacked] returns, and it returns true
    exactly when some piece of the attacking colour reaches the target by
    the rule of its kind; for a pawn that includes its forward steps onto an
    empty target. *)
Theorem is_square_attacked_iff_reached (b : Board) (target : Z * Z)
    (clr : Color) :
  wf_board b = true ->
  exists v, is_square_attacked b target clr = Ok v /\
    (v = true <->
     exists r c p, in_bounds r c = true /\ board_get b r c = Ok (Some p) /\
                   color p = clr /\ reach b p r c target).
Proof.
  intros Hwf.
  destruct (is_square_attacked_exact b target clr Hwf) as (v & Hv & Hiff).
  exists v. split; [done|]. rewrite Hiff.
  split; intros (r & c & p & Hb & Hp & Hrest); exists r, c, p;
    (split; [done|]); (split; [|done]).
  - rewrite board_get_cell by done. by f_equal.
  - rewrite board_get_cell in Hp by done. by injection Hp.
Qed.

Lemma is_square_attacked_iff_reached_witness :
  wf_board knight_takes_knight = true /\
  exists v, is_square_attacked knight_takes_knight (0, 1) White = Ok v /\
    (v = true <->
     exists r c p, in_bounds r c = true /\
       board_get knight_takes_knight r c = Ok (Some p) /\
       color p = White /\ reach knight_takes_knight p r c (0, 1)).
Proof.
  split; [reflexivity|].
  apply (is_square_attacked_iff_reached knight_takes_knight (0, 1) White).
  reflexivity.
Defined.

(** X4: on an 8x8 board on which [find_king] finds the king on [k],
    [is_in_check] returns, and it returns true exactly when some piece of
    the opposite colour reaches [k] by the rule of its kind. *)
Theorem is_in_check_iff_king_reached (b : Board) (clr : Color) (k : Z * Z) :
  wf_board b = true -> find_king b clr = Ok (Some k) ->
  exists v, is_in_check b clr = Ok v /\
    (v = true <->
     exists r c p, in_bounds r c = true /\ board_get b r c = Ok (Some p) /\
                   color p = opponent clr /\ reach b p r c k).
Proof.
  intros Hwf Hk.
  destruct (is_square_attacked_exact b k (opponent clr) Hwf) as (v & Hv & Hiff).
  exists v. unfold is_in_check. rewrite Hk; cbn [bind]. split; [done|].
  rewrite Hiff.
  split; intros (r & c & p & Hb & Hp & Hrest); exists r, c, p;
    (split; [done|]); (split; [|done]).
  - rewrite board_get_cell by done. by f_equal.
  - rewrite board_get_cell in Hp by done. by injection Hp.
Qed.

Lemma is_in_check_iff_king_reached_witness :
  wf_board start_position = true /\
  find_king start_position Black = Ok (Some (0, 4)) /\
  exists v, is_in_check start_position Black = Ok v /\
    (v = true <->
     exists r c p, in_bounds r c = true /\
       board_get start_position r c = Ok (Some p) /\
       color p = opponent Black /\ reach start_position p r c (0, 4)).
Proof.
  split; [reflexivity|]. split; [reflexivity|].
  apply (is_in_check_iff_king_reached start_position Black (0, 4));
    reflexivity.
Defined.

(** X5: on an 8x8 board the legal moves are the pseudo-legal moves, in the
    same order, that can be applied and leave the mover out of check: the
    list returned is a sublist of the pseudo-legal list, and a move is in it
    if and only if it is pseudo-legal and [is_in_check] is false on the
    board [make_move] yields. *)
Theorem legal_moves_filter_of_pseudo (b : Board) (clr : Color) :
  wf_board b = true ->
  exists pseudo legal,
    generate_pseudo_legal_moves b clr = Ok pseudo /\
    generate_legal_moves b clr = Ok legal /\
    legal `sublist_of` pseudo /\
    forall m, m ∈ legal <->
      m ∈ pseudo /\
      exists nb, make_move b m = Ok nb /\ is_in_check nb clr = Ok false.
Proof.
  intros Hwf.
  destruct (generate_legal_moves_filter b clr Hwf) as (pseudo & Hps & _ & Hgen).
  exists pseudo, (List.filter (keeps b clr) pseudo).
  split; [done|]. split; [done|]. split; [apply List_filter_sublist|].
  intros m. by rewrite elem_of_List_filter, keeps_true.
Qed.

Lemma legal_moves_filter_of_pseudo_witness :
  wf_board start_position = true /\
  exists pseudo legal,
    generate_pseudo_legal_moves start_position White = Ok pseudo /\
    generate_legal_moves start_position White = Ok legal /\
    legal `sublist_of` pseudo /\
    forall m, m ∈ legal <->
      m ∈ pseudo /\
      exists nb, make_move start_position m = Ok nb /\
                 is_in_check nb White = Ok false.
Proof.
  split; [reflexivity|].
  apply (legal_moves_filter_of_pseudo start_position White). reflexivity.
Defined.

(** X6: on an 8x8 board [make_move] raises [IndexError] exactly when one of
    the four coordinates is outside [-8, 8).  Otherwise it returns an 8x8
    board; a negative coordinate addresses the square counted from the end
    (its value modulo 8), while the promotion test still compares the
    destination row as written with 0 and 7. *)
Theorem make_move_index_rules (b : Board) (r1 c1 r2 c2 : Z) :
  wf_board b = true ->
  if py_ok r1 && py_ok c1 && py_ok r2 && py_ok c2 then
    exists nb, make_move b ((r1, c1), (r2, c2)) = Ok nb /\
      wf_board nb = true /\
      forall r c, in_bounds r c = true ->
        board_get nb r c =
          if decide ((r, c) = (r2 mod 8, c2 mod 8))
          then Ok (landed (cell b (r1 mod 8) (c1 mod 8)) r2)
          else if decide ((r, c) = (r1 mod 8, c1 mod 8)) then Ok None
          else board_get b r c
  else make_move b ((r1, c1), (r2, c2)) = Raise IndexError.
Proof.
  intros Hwf.
  destruct (py_ok r1 && py_ok c1 && py_ok r2 && py_ok c2) eqn:Hok.
  - apply andb_true_iff in Hok as [Hok Hc2].
    apply andb_true_iff in Hok as [Hok Hr2].
    apply andb_true_iff in Hok as [Hr1 Hc1].
    destruct (make_move_cells_py b r1 c1 r2 c2 Hwf Hr1 Hc1 Hr2 Hc2)
      as (nb & Hmv & Hwfnb & Hcells).
    exists nb. split; [done|]. split; [done|].
    intros r c Hin. rewrite !board_get_cell by done. rewrite Hcells by done.
    by repeat case_decide.
  - by apply make_move_bad.
Qed.

Lemma make_move_index_rules_witness :
  wf_board pawn_on_last_row = true /\
  exists nb, make_move pawn_on_last_row ((0, 3), (-8, -1)) = Ok nb /\
    wf_board nb = true /\
    forall r c, in_bounds r c = true ->
      board_get nb r c =
        if decide ((r, c) = (-8 mod 8, -1 mod 8))
        then Ok (landed (cell pawn_on_last_row (0 mod 8) (3 mod 8)) (-8))
        else if decide ((r, c) = (0 mod 8, 3 mod 8)) then Ok None
        else board_get pawn_on_last_row r c.
Proof.
  split; [reflexivity|].
  apply (make_move_index_rules pawn_on_last_row 0 3 (-8) (-1)). reflexivity.
Defined.

(** X7: every move [generate_pseudo_legal_moves] returns on an 8x8 board,
    hence every legal move, goes between two different squares and can be
    applied: on the board [make_move] yields the source is empty, the
    destination holds the moved piece (a queen in its place if it is a pawn
    arriving on its last row), and every other square is as before. *)
Theorem generated_move_effect (b : Board) (clr : Color) (moves : list Move)
    (r1 c1 r2 c2 : Z) :
  wf_board b = true -> generate_pseudo_legal_moves b clr = Ok moves ->
  ((r1, c1), (r2, c2)) ∈ moves ->
  (r1, c1) <> (r2, c2) /\
  exists p nb,
    board_get b r1 c1 = Ok (Some p) /\
    make_move b ((r1, c1), (r2, c2)) = Ok nb /\ wf_board nb = true /\
    board_get nb r1 c1 = Ok None /\
    board_get nb r2 c2 =
      Ok (Some (if promotes p r2 then mkPiece (color p) Queen else p)) /\
    forall r c, in_bounds r c = true ->
      (r, c) <> (r1, c1) -> (r, c) <> (r2, c2) ->
      board_get nb r c = board_get b r c.
Proof.
  intros Hwf Hgen Hm.
  destruct (generate_pseudo_legal_moves_ok b clr Hwf) as (moves' & Hgen' & Hok).
  rewrite Hgen in Hgen'. injection Hgen' as <-.
  rewrite Forall_forall in Hok. specialize (Hok _ Hm).
  pose proof (pseudo_ok_distinct _ _ _ Hok) as Hne. simpl in Hne.
  split; [done|].
  destruct Hok as (H1 & H2 & (p & Hp & Hcol) & _). simpl in *.
  destruct (make_move_cells b r1 c1 r2 c2 Hwf H1 H2) as (nb & Hmv & Hwfnb & Hcells).
  exists p, nb. split; [done|]. split; [done|]. split; [done|].
  assert (Hsrc : cell b r1 c1 = Some p) by (unfold cell; by rewrite Hp).
  rewrite !(board_get_cell nb) by done. rewrite !Hcells by done.
  rewrite decide_False by done. rewrite !decide_True by done.
  split; [done|]. split.
  - rewrite Hsrc. unfold landed. fold (promotes p r2).
    by destruct (promotes p r2).
  - intros r c Hin Hs Hd. rewrite !board_get_cell by done.
    rewrite Hcells by done. by rewrite !decide_False by done.
Qed.

Lemma generated_move_effect_witness :
  exists moves,
    wf_board capture_promotion_position = true /\
    generate_pseudo_legal_moves capture_promotion_position White = Ok moves /\
    ((1, 0), (0, 1)) ∈ moves /\
    (1, 0) <> (0, 1) /\
    exists p nb,
      board_get capture_promotion_position 1 0 = Ok (Some p) /\
      make_move capture_promotion_position ((1, 0), (0, 1)) = Ok nb /\
      wf_board nb = true /\
      board_get nb 1 0 = Ok None /\
      board_get nb 0 1 =
        Ok (Some (if promotes p 0 then mkPiece (color p) Queen else p)) /\
      forall r c, in_bounds r c = true ->
        (r, c) <> (1, 0) -> (r, c) <> (0, 1) ->
        board_get nb r c = board_get capture_promotion_position r c.
Proof.
  eexists. split; [reflexivity|]. split; [vm_compute; reflexivity|].
  assert (Hin : ((1, 0), (0, 1)) ∈
                [((1, 0), (0, 0)); ((1, 0), (0, 1)) : Move])
    by (right; left).
  split; [exact Hin|].
  exact (generated_move_effect capture_promotion_position White _ 1 0 0 1
           eq_refl eq_refl Hin).
Defined.

(** X8: for every move [generate_pseudo_legal_moves] returns on an 8x8
    board, and so for every legal move, [evaluate_material] after the move
    differs from before by the value of what stood on the destination, plus
    8 when the moved pawn is promoted, counted for the mover: added for
    White, subtracted for Black. *)
Theorem generated_move_material (b : Board) (clr : Color) (moves : list Move)
    (r1 c1 r2 c2 : Z) :
  wf_board b = true -> generate_pseudo_legal_moves b clr = Ok moves ->
  ((r1, c1), (r2, c2)) ∈ moves ->
  exists nb e,
    make_move b ((r1, c1), (r2, c2)) = Ok nb /\
    evaluate_material b = Ok e /\
    evaluate_material nb =
      Ok (e + sign_of clr * gain b ((r1, c1), (r2, c2))).
Proof.
  intros Hwf Hgen Hm.
  destruct (generate_pseudo_legal_moves_ok b clr Hwf) as (moves' & Hgen' & Hok).
  rewrite Hgen in Hgen'. injection Hgen' as <-.
  rewrite Forall_forall in Hok. specialize (Hok _ Hm).
  destruct (pseudo_move_material b clr r1 c1 r2 c2 Hwf Hok)
    as (p & nb & e & Hp & Hmv & He & Hnb).
  exists nb, e. split; [done|]. split; [done|]. rewrite Hnb.
  unfold gain; simpl.
  assert (cell b r1 c1 = Some p) as -> by (unfold cell; by rewrite Hp).
  done.
Qed.

Lemma generated_move_material_witness :
  exists moves,
    wf_board capture_promotion_position = true /\
    generate_pseudo_legal_moves capture_promotion_position White = Ok moves /\
    ((1, 0), (0, 1)) ∈ moves /\
    exists nb e,
      make_move capture_promotion_position ((1, 0), (0, 1)) = Ok nb /\
      evaluate_material capture_promotion_position = Ok e /\
      evaluate_material nb =
        Ok (e + sign_of White
                * gain capture_promotion_position ((1, 0), (0, 1))).
Proof.
  eexists. split; [reflexivity|]. split; [vm_compute; reflexivity|].
  assert (Hin : ((1, 0), (0, 1)) ∈
                [((1, 0), (0, 0)); ((1, 0), (0, 1)) : Move])
    by (right; left).
  split; [exact Hin|].
  exact (generated_move_material capture_promotion_position White _ 1 0 0 1
           eq_refl eq_refl Hin).
Defined.

(** X9: [square_at_pixel] returns a square exactly for the pixels of the
    640x640 window, negative coordinates included among those it refuses;
    the square is then on the board, with row [y // TILE_SIZE] and column
    [x // TILE_SIZE], where [TILE_SIZE] is 80. *)
Theorem square_at_pixel_window (x y : Z) :
  (0 <= x < WIDTH /\ 0 <= y < HEIGHT ->
   square_at_pixel (x, y) = Some (y / TILE_SIZE, x / TILE_SIZE) /\
   in_bounds (y / TILE_SIZE) (x / TILE_SIZE) = true) /\
  (~ (0 <= x < WIDTH /\ 0 <= y < HEIGHT) -> square_at_pixel (x, y) = None).
Proof.
  unfold square_at_pixel, WIDTH, HEIGHT.
  change TILE_SIZE with 80.
  pose proof (Z.div_le_lower_bound x 80 0) as Hx0.
  pose proof (Z.div_lt_upper_bound x 80 8) as Hx8.
  pose proof (Z.div_le_lower_bound y 80 0) as Hy0.
  pose proof (Z.div_lt_upper_bound y 80 8) as Hy8.
  pose proof (Z.mul_div_le x 80) as Hxm.
  pose proof (Z.mul_div_le y 80) as Hym.
  pose proof (Z.mul_succ_div_gt x 80) as Hxs.
  pose proof (Z.mul_succ_div_gt y 80) as Hys.
  split.
  - intros [Hx Hy].
    assert (in_bounds (y / 80) (x / 80) = true) as Hin
      by (apply in_bounds_spec; lia).
    by rewrite Hin.
  - intros Hout.
    destruct (in_bounds (y / 80) (x / 80)) eqn:Hin; [|done].
    apply in_bounds_spec in Hin. lia.
Qed.

Lemma square_at_pixel_window_witness :
  (0 <= 335 < WIDTH /\ 0 <= 500 < HEIGHT ->
   square_at_pixel (335, 500) = Some (500 / TILE_SIZE, 335 / TILE_SIZE) /\
   in_bounds (500 / TILE_SIZE) (335 / TILE_SIZE) = true) /\
  (~ (0 <= 335 < WIDTH /\ 0 <= 500 < HEIGHT) ->
   square_at_pixel (335, 500) = None).
Proof. exact (square_at_pixel_window 335 500). Defined.

(** X10: a click on any pixel of the rectangle [draw_board] fills for a
    square of the board is mapped back to that square by
    [square_at_pixel]. *)
Theorem square_rect_round_trip (r c x y : Z) :
  in_bounds r c = true ->
  (let '(x0, y0, w, h) := square_rect r c in
   x0 <= x < x0 + w /\ y0 <= y < y0 + h) ->
  square_at_pixel (x, y) = Some (r, c).
Proof.
  intros [Hr Hc]%in_bounds_spec. unfold square_rect, square_at_pixel.
  change TILE_SIZE with 80. intros [Hx Hy].
  assert (x / 80 = c) as -> by (symmetry; apply (Z.div_unique x 80 c (x - c * 80)); lia).
  assert (y / 80 = r) as -> by (symmetry; apply (Z.div_unique y 80 r (y - r * 80)); lia).
  assert (in_bounds r c = true) as -> by (apply in_bounds_spec; lia).
  done.
Qed.

Lemma square_rect_round_trip_witness :
  in_bounds 6 4 = true /\
  (let '(x0, y0, w, h) := square_rect 6 4 in
   x0 <= 399 < x0 + w /\ y0 <= 480 < y0 + h) /\
  square_at_pixel (399, 480) = Some (6, 4).
Proof.
  split; [reflexivity|].
  assert (H : let '(x0, y0, w, h) := square_rect 6 4 in
              x0 <= 399 < x0 + w /\ y0 <= 480 < y0 + h)
    by (vm_compute; repeat split; discriminate).
  split; [exact H|].
  exact (square_rect_round_trip 6 4 399 480 eq_refl H).
Defined.

(** X11: [update_legals_for_selected] changes nothing but
    [legal_for_selected].  Without a selection it empties it; with an 8x8
    board and a selected square on the board it makes it exactly the
    destinations of the legal moves of the side to move that start on the
    selected square (none when the square is empty or holds a piece of the
    other side). *)
Theorem update_legals_for_selected_exact (g : Game) :
  wf_board (board g) = true ->
  (selected g = None ->
   update_legals_for_selected g = Ok (set_selection g None [])) /\
  (forall r c, selected g = Some (r, c) -> in_bounds r c = true ->
   exists legal g',
     generate_legal_moves (board g) (turn g) = Ok legal /\
     update_legals_for_selected g = Ok g' /\
     board g' = board g /\ turn g' = turn g /\ selected g' = Some (r, c) /\
     game_over g' = game_over g /\ result_text g' = result_text g /\
     forall d, d ∈ legal_for_selected g' <-> ((r, c), d) ∈ legal).
Proof.
  intros Hwf. split.
  - intros Hsel. unfold update_legals_for_selected.
    cbn [set_selection selected]. by rewrite Hsel.
  - intros r c Hsel Hin. by apply update_legals_spec.
Qed.

Lemma update_legals_for_selected_exact_witness :
  let g := mkGame start_position White (Some (7, 1)) [(0, 0)] false "" in
  wf_board (board g) = true /\
  (selected g = None ->
   update_legals_for_selected g = Ok (set_selection g None [])) /\
  (forall r c, selected g = Some (r, c) -> in_bounds r c = true ->
   exists legal g',
     generate_legal_moves (board g) (turn g) = Ok legal /\
     update_legals_for_selected g = Ok g' /\
     board g' = board g /\ turn g' = turn g /\ selected g' = Some (r, c) /\
     game_over g' = game_over g /\ result_text g' = result_text g /\
     forall d, d ∈ legal_for_selected g' <-> ((r, c), d) ∈ legal).
Proof.
  intros g. split; [reflexivity|].
  apply (update_legals_for_selected_exact g). reflexivity.
Defined.

(** X12: [check_game_end] changes neither the board nor the side to move,
    never puts a finished game back in play, and running it again on its
    own result changes nothing. *)
Theorem check_game_end_idempotent (g g' : Game) :
  check_game_end g = Ok g' ->
  check_game_end g' = Ok g' /\ board g' = board g /\ turn g' = turn g /\
  (game_over g = true -> game_over g' = true).
Proof.
  unfold check_game_end at 1.
  intros (legal & Hlegal & Hrest)%bind_Ok.
  destruct legal as [|m legal].
  - apply bind_Ok in Hrest as (chk & Hchk & Hrest).
    destruct chk; injection Hrest as <-; simpl; (split; [|by auto]);
      unfold check_game_end; simpl; by rewrite Hlegal, Hchk.
  - injection Hrest as <-. split; [|by auto].
    unfold check_game_end. by rewrite Hlegal.
Qed.

Lemma check_game_end_idempotent_witness :
  let g := mkGame empty_board White None [] false "" in
  let g' := mkGame empty_board White None [] true "Stalemate! Draw." in
  check_game_end g = Ok g' /\
  check_game_end g' = Ok g' /\ board g' = board g /\ turn g' = turn g /\
  (game_over g = true -> game_over g' = true).
Proof.
  intros g g'.
  assert (H : check_game_end g = Ok g') by (vm_compute; reflexivity).
  split; [exact H|]. exact (check_game_end_idempotent g g' H).
Defined.

(** X13: [click], from a state that satisfies the controller's invariant,
    raises nothing and re-establishes the invariant.  It changes nothing
    when the game is over or the pixel is outside the window.  Otherwise it
    either leaves the board, the side to move and the game-over flag as they
    are (it only changes the selection), or it applies a legal move of the
    side to move, from the selected square to the clicked one, and hands
    the turn to the other side with the mover not in check. *)
Theorem click_applies_only_legal_moves (g : Game) (pos : Z * Z) :
  ctl_inv g ->
  exists g', click g pos = Ok g' /\ ctl_inv g' /\
    (game_over g = true \/ square_at_pixel pos = None -> g' = g) /\
    ((board g' = board g /\ turn g' = turn g /\
      game_over g' = game_over g) \/
     (exists legal src dst,
        selected g = Some src /\ square_at_pixel pos = Some dst /\
        dst ∈ legal_for_selected g /\
        generate_legal_moves (board g) (turn g) = Ok legal /\
        (src, dst) ∈ legal /\
        make_move (board g) (src, dst) = Ok (board g') /\
        turn g' = opponent (turn g) /\
        is_in_check (board g') (turn g) = Ok false)).
Proof.
  intros Hinv. pose proof Hinv as [Hwf Hsel]. unfold click.
  destruct (game_over g) eqn:Hover.
  { exists g. split; [done|]. split; [done|]. split; [done|]. by left. }
  destruct (square_at_pixel pos) as [[r c]|] eqn:Hsq.
  2:{ exists g. split; [done|]. split; [done|]. split; [done|]. by left. }
  apply square_at_pixel_Some in Hsq as (Hin & _ & _).
  assert (Hselect :
    exists g',
      update_legals_for_selected
        (set_selection g (Some (r, c)) (legal_for_selected g)) = Ok g' /\
      ctl_inv g' /\ (false = true \/ Some (r, c) = None -> g' = g) /\
      ((board g' = board g /\ turn g' = turn g /\ game_over g' = false) \/
       (exists legal src dst,
          selected g = Some src /\ Some (r, c) = Some dst /\
          dst ∈ legal_for_selected g /\
          generate_legal_moves (board g) (turn g) = Ok legal /\
          (src, dst) ∈ legal /\
          make_move (board g) (src, dst) = Ok (board g') /\
          turn g' = opponent (turn g) /\
          is_in_check (board g') (turn g) = Ok false))).
  { destruct (select_keeps_inv g r c Hwf Hin) as (g' & Hrun & Hinv' & Hb & Ht & Ho & _).
    exists g'. split; [done|]. split; [done|].
    split; [by intros [?|?]|]. left. by rewrite Ho, Hover. }
  assert (Hdrop : ctl_inv (set_selection g None [])) by (by split).
  destruct (selected g) as [sel|] eqn:Hs.
  - destruct (existsb (square_eqb (r, c)) (legal_for_selected g)) eqn:Hex.
    + apply existsb_square in Hex.
      destruct (Hsel _ Hex) as (legal & Hgen & Hm).
      destruct (apply_move_legal g legal (sel, (r, c)) Hwf Hgen Hm)
        as (nb & g' & Hnb & Hrun & Hb & Ht & Hs' & Hl' & Hwfnb & Hchk & _).
      exists g'. split; [done|]. split.
      { split; [by rewrite Hb|]. by rewrite Hs'. }
      split; [by intros [?|?]|]. right. exists legal, sel, (r, c).
      rewrite Hb. by repeat split.
    + rewrite board_get_cell by done; cbn [bind].
      destruct (cell (board g) r c) as [p|].
      * destruct (color_eqb (color p) (turn g)); [exact Hselect|].
        eexists. split; [done|]. split; [done|].
        split; [by intros [?|?]|]. left. simpl. by rewrite Hover.
      * eexists. split; [done|]. split; [done|].
        split; [by intros [?|?]|]. left. simpl. by rewrite Hover.
  - rewrite board_get_cell by done; cbn [bind].
    destruct (cell (board g) r c) as [p|].
    + destruct (color_eqb (color p) (turn g)); [exact Hselect|].
      exists g. split; [done|]. split; [exact Hinv|].
      split; [done|]. left. by rewrite Hover.
    + exists g. split; [done|]. split; [exact Hinv|].
      split; [done|]. left. by rewrite Hover.
Qed.

Lemma click_applies_only_legal_moves_witness :
  let g := mkGame start_position White (Some (6, 4)) [(5, 4); (4, 4)]
             false "" in
  ctl_inv g /\
  exists g', click g (330, 330) = Ok g' /\ ctl_inv g' /\
    (game_over g = true \/ square_at_pixel (330, 330) = None -> g' = g) /\
    ((board g' = board g /\ turn g' = turn g /\
      game_over g' = game_over g) \/
     (exists legal src dst,
        selected g = Some src /\ square_at_pixel (330, 330) = Some dst /\
        dst ∈ legal_for_selected g /\
        generate_legal_moves (board g) (turn g) = Ok legal /\
        (src, dst) ∈ legal /\
        make_move (board g) (src, dst) = Ok (board g') /\
        turn g' = opponent (turn g) /\
        is_in_check (board g') (turn g) = Ok false)).
Proof.
  intros g.
  assert (Hinv : ctl_inv g).
  { split; [reflexivity|]. simpl. intros d Hd.
    eexists. split; [vm_compute; reflexivity|].
    apply elem_of_cons in Hd as [->|Hd];
      [|apply list_elem_of_singleton in Hd as ->];
      apply (bool_decide_unpack _); by vm_compute. }
  split; [exact Hinv|].
  exact (click_applies_only_legal_moves g (330, 330) Hinv).
Defined.

(** X14: [apply_move] with a legal move of the side to move, on an 8x8
    board, installs the board [make_move] yields, hands the turn to the
    other side, clears the selection and leaves the side that moved out of
    check; the game is flagged over afterwards only if it already was or
    the side now to move has no legal move. *)
Theorem apply_move_of_legal_move (g : Game) (legal : list Move) (m : Move) :
  wf_board (board g) = true ->
  generate_legal_moves (board g) (turn g) = Ok legal -> m ∈ legal ->
  exists g',
    apply_move g m = Ok g' /\
    make_move (board g) m = Ok (board g') /\
    wf_board (board g') = true /\
    turn g' = opponent (turn g) /\
    selected g' = None /\ legal_for_selected g' = [] /\
    is_in_check (board g') (opponent (turn g')) = Ok false /\
    (game_over g' = true ->
     game_over g = true \/
     generate_legal_moves (board g') (turn g') = Ok []).
Proof.
  intros Hwf Hgen Hm.
  destruct (apply_move_legal g legal m Hwf Hgen Hm)
    as (nb & g' & Hnb & Hrun & Hb & Ht & Hs & Hl & Hwfnb & Hchk & _ & Hover).
  exists g'. rewrite Hb, Ht. repeat split; try done.
  by destruct (turn g).
Qed.

Lemma apply_move_of_legal_move_witness :
  let g := mkGame start_position White None [] false "" in
  exists legal,
    wf_board (board g) = true /\
    generate_legal_moves (board g) (turn g) = Ok legal /\
    ((6, 4), (4, 4)) ∈ legal /\
    exists g',
      apply_move g ((6, 4), (4, 4)) = Ok g' /\
      make_move (board g) ((6, 4), (4, 4)) = Ok (board g') /\
      wf_board (board g') = true /\
      turn g' = opponent (turn g) /\
      selected g' = None /\ legal_for_selected g' = [] /\
      is_in_check (board g') (opponent (turn g')) = Ok false /\
      (game_over g' = true ->
       game_over g = true \/
       generate_legal_moves (board g') (turn g') = Ok []).
Proof.
  intros g. eexists. split; [reflexivity|].
  match goal with
  | |- ?A /\ _ =>
      assert (Hgen : A) by (vm_compute; reflexivity); split; [exact Hgen|]
  end.
  match goal with
  | |- ?A /\ _ =>
      assert (Hin : A) by (apply (bool_decide_unpack _); by vm_compute);
      split; [exact Hin|]
  end.
  exact (apply_move_of_legal_move g _ ((6, 4), (4, 4)) eq_refl Hgen Hin).
Defined.

(** X15: [ai_move_if_needed] changes nothing when the game is over or it is
    White's turn.  With the game in play and Black to move on an 8x8 board
    it raises nothing and leaves the selection as it was; if Black has no
    legal move it flags the game over on the same board, otherwise it
    installs the board of the legal move [ai_choose_move] returns, hands the
    turn to White and leaves Black out of check. *)
Theorem ai_move_if_needed_turn (rnd : nat) (g : Game) :
  wf_board (board g) = true ->
  (game_over g = true \/ turn g = White -> ai_move_if_needed rnd g = Ok g) /\
  (game_over g = false -> turn g = Black ->
   exists legal g',
     generate_legal_moves (board g) Black = Ok legal /\
     ai_move_if_needed rnd g = Ok g' /\
     selected g' = selected g /\
     legal_for_selected g' = legal_for_selected g /\
     wf_board (board g') = true /\
     match legal with
     | [] => board g' = board g /\ turn g' = Black /\ game_over g' = true
     | _ :: _ =>
         exists m, m ∈ legal /\
           ai_choose_move rnd (board g) Black = Ok (Some m) /\
           make_move (board g) m = Ok (board g') /\ turn g' = White /\
           is_in_check (board g') Black = Ok false
     end).
Proof.
  intros Hwf. split.
  - unfold ai_move_if_needed. intros [->| ->]; [done|].
    by destruct (game_over g).
  - intros Hover Hturn. by apply ai_move_black.
Qed.

Lemma ai_move_if_needed_turn_witness :
  let g := mkGame start_position Black None [] false "" in
  wf_board (board g) = true /\
  (game_over g = true \/ turn g = White -> ai_move_if_needed 3 g = Ok g) /\
  (game_over g = false -> turn g = Black ->
   exists legal g',
     generate_legal_moves (board g) Black = Ok legal /\
     ai_move_if_needed 3 g = Ok g' /\
     selected g' = selected g /\
     legal_for_selected g' = legal_for_selected g /\
     wf_board (board g') = true /\
     match legal with
     | [] => board g' = board g /\ turn g' = Black /\ game_over g' = true
     | _ :: _ =>
         exists m, m ∈ legal /\
           ai_choose_move 3 (board g) Black = Ok (Some m) /\
           make_move (board g) m = Ok (board g') /\ turn g' = White /\
           is_in_check (board g') Black = Ok false
     end).
Proof.
  intros g. split; [reflexivity|].
  apply (ai_move_if_needed_turn 3 g). reflexivity.
Defined.

(** X16: on the store, [clone_board] of a board object returns a new grid
    object whose rows are new, pairwise distinct row objects; the clone
    holds the same board value as the original, and every object that
    existed before the call is unchanged. *)
Theorem clone_board_fresh_copy (h : gmap nat Store.obj) (b : nat) (B : Board) :
  Store.load_board h b = Ok B ->
  exists h' nb ls,
    Store.clone_board h b = Ok (h', nb) /\ h ⊆ h' /\
    Store.load_board h' b = Ok B /\ Store.load_board h' nb = Ok B /\
    clone_board B = B /\
    h !! nb = None /\ h' !! nb = Some (Store.Grid ls) /\
    NoDup ls /\ forall l, l ∈ ls -> h !! l = None.
Proof.
  intros Hload.
  destruct (clone_board_spec h b B Hload)
    as (h' & nb & ls & Hrun & Hnb & Hnd & _ & Hfresh & Hnew & Hsub & HF).
  exists h', nb, ls. split; [done|]. split; [done|].
  split; [by eapply load_board_weaken|]. split.
  - unfold Store.load_board. apply get_grid_Ok in Hnb. rewrite Hnb.
    cbn [bind]. by apply load_rows_Forall2.
  - split; [apply clone_board_id|]. by repeat split.
Qed.

Lemma clone_board_fresh_copy_witness :
  Store.load_board start_store 8%nat = Ok start_position /\
  exists h' nb ls,
    Store.clone_board start_store 8%nat = Ok (h', nb) /\ start_store ⊆ h' /\
    Store.load_board h' 8%nat = Ok start_position /\
    Store.load_board h' nb = Ok start_position /\
    clone_board start_position = start_position /\
    start_store !! nb = None /\ h' !! nb = Some (Store.Grid ls) /\
    NoDup ls /\ forall l, l ∈ ls -> start_store !! l = None.
Proof.
  assert (H : Store.load_board start_store 8%nat = Ok start_position)
    by (by vm_compute).
  split; [exact H|].
  exact (clone_board_fresh_copy start_store 8%nat start_position H).
Defined.

Lemma sign_of_square (clr : Color) : sign_of clr * sign_of clr = 1.
Proof. by destruct clr. Qed.

Lemma move_score_gain (b : Board) (clr : Color) (m : Move) :
  wf_board b = true -> pseudo_ok b clr m ->
  exists e, evaluate_material b = Ok e /\
            move_score b clr m = Ok (e * sign_of clr + gain b m).
Proof.
  intros Hwf Hok. destruct m as [[r1 c1] [r2 c2]].
  destruct (pseudo_move_material b clr r1 c1 r2 c2 Hwf Hok)
    as (p & nb & e & Hp & Hmv & He & Hnb).
  exists e. split; [done|]. unfold move_score. rewrite Hmv; cbn [bind].
  rewrite Hnb; cbn [bind]. fold (sign_of clr). f_equal.
  unfold gain; simpl.
  assert (cell b r1 c1 = Some p) as -> by (unfold cell; by rewrite Hp).
  set (G := captured_value (cell b r2 c2) + _).
  replace ((e + sign_of clr * G) * sign_of clr)
    with (e * sign_of clr + G * (sign_of clr * sign_of clr)) by ring.
  rewrite sign_of_square. ring.
Qed.

(** X17: whenever [ai_choose_move] returns a move on an 8x8 board, that
    move is legal and no legal move wins more material: the value of what
    stands on its destination, plus 8 if it promotes a pawn, is maximal
    among the legal moves. *)
Theorem ai_choose_move_best_gain (rnd : nat) (b : Board) (clr : Color)
    (m : Move) :
  wf_board b = true -> ai_choose_move rnd b clr = Ok (Some m) ->
  exists legal, generate_legal_moves b clr = Ok legal /\ m ∈ legal /\
    forall m', m' ∈ legal -> gain b m' <= gain b m.
Proof.
  intros Hwf Hai.
  destruct (ai_choose_move_spec b clr Hwf) as (legal & Hgen & Hspec).
  exists legal. split; [done|].
  destruct legal as [|m0 legal']; [by rewrite Hspec in Hai|].
  destruct Hspec as (s & best & Hbest & Hne & Hscores & Hrun).
  rewrite Hrun in Hai.
  destruct (random_choice_index rnd best Hne) as (m1 & Hin & Hm1).
  rewrite Hm1 in Hai. injection Hai as ->.
  apply list_elem_of_lookup_2 in Hin. rewrite Hbest in Hin.
  apply elem_of_List_filter in Hin as [Hin Hs%Z.eqb_eq].
  split; [done|]. intros m' Hm'.
  assert (Hg : forall x, x ∈ m0 :: legal' ->
            exists e, evaluate_material b = Ok e /\
                      score_of b clr x = e * sign_of clr + gain b x).
  { intros x Hx.
    destruct (legal_move_applies b clr _ x Hwf Hgen Hx) as (Hok & _).
    destruct (move_score_gain b clr x Hwf Hok) as (e & He & Hsc).
    exists e. split; [done|]. unfold score_of. by rewrite Hsc. }
  destruct (Hg m Hin) as (e & He & Hm).
  destruct (Hg m' Hm') as (e' & He' & Hm'sc).
  assert (e' = e) as -> by congruence.
  destruct (Hscores m' Hm') as [_ Hle]. lia.
Qed.

Lemma ai_choose_move_best_gain_witness :
  exists m,
    wf_board capture_promotion_position = true /\
    ai_choose_move 0 capture_promotion_position White = Ok (Some m) /\
    exists legal,
      generate_legal_moves capture_promotion_position White = Ok legal /\
      m ∈ legal /\
      forall m', m' ∈ legal ->
        gain capture_promotion_position m'
        <= gain capture_promotion_position m.
Proof.
  eexists. split; [reflexivity|].
  match goal with
  | |- ?A /\ _ =>
      assert (Hai : A) by (vm_compute; reflexivity); split; [exact Hai|]
  end.
  exact (ai_choose_move_best_gain 0 capture_promotion_position White _
           eq_refl Hai).
Defined.

(** X18: from a state that satisfies the controller's invariant and has no
    square selected, [ai_move_if_needed] raises nothing and yields a state
    that satisfies the invariant again. *)
Theorem ai_move_if_needed_keeps_invariant (rnd : nat) (g : Game) :
  ctl_inv g -> selected g = None ->
  exists g', ai_move_if_needed rnd g = Ok g' /\ ctl_inv g' /\
             selected g' = None.
Proof.
  intros [Hwf Hsel] Hnone. rewrite Hnone in Hsel.
  destruct (game_over g) eqn:Hover.
  { exists g. unfold ai_move_if_needed. rewrite Hover.
    split; [done|]. split; [|done]. split; [done|]. by rewrite Hnone. }
  destruct (turn g) eqn:Hturn.
  { exists g. unfold ai_move_if_needed. rewrite Hover, Hturn.
    split; [done|]. split; [|done]. split; [done|]. by rewrite Hnone. }
  destruct (ai_move_black rnd g Hwf Hover Hturn)
    as (legal & g' & _ & Hrun & Hs & Hl & Hwf' & _).
  exists g'. split; [done|]. rewrite Hs, Hnone. split; [|done].
  split; [done|]. rewrite Hs, Hnone. by rewrite Hl.
Qed.

Lemma ai_move_if_needed_keeps_invariant_witness :
  let g := mkGame start_position Black None [] false "" in
  ctl_inv g /\ selected g = None /\
  exists g', ai_move_if_needed 5 g = Ok g' /\ ctl_inv g' /\
             selected g' = None.
Proof.
  intros g.
  assert (Hinv : ctl_inv g) by (split; reflexivity).
  split; [exact Hinv|]. split; [reflexivity|].
  exact (ai_move_if_needed_keeps_invariant 5 g Hinv eq_refl).
Defined.

(** X19: on an 8x8 board the square [draw] highlights as in check is
    computed without raising; it is none exactly when the side to move is
    not in check, and otherwise it is the square [find_king] returns, which
    holds the king of the side to move. *)
Theorem draw_in_check_sq_king (g : Game) :
  wf_board (board g) = true ->
  exists chk sq,
    is_in_check (board g) (turn g) = Ok chk /\
    draw_in_check_sq g = Ok sq /\
    (sq = None <-> chk = false) /\
    forall r c, sq = Some (r, c) ->
      find_king (board g) (turn g) = Ok (Some (r, c)) /\
      in_bounds r c = true /\
      board_get (board g) r c = Ok (Some (mkPiece (turn g) King)).
Proof.
  intros Hwf. unfold draw_in_check_sq, is_in_check.
  destruct (find_king_scan (board g) (turn g) Hwf)
    as [(r & c & Hin & Hf & Hk & _)|[Hf _]]; rewrite Hf; cbn [bind].
  - destruct (is_square_attacked_exact (board g) (r, c) (opponent (turn g)) Hwf)
      as (v & Hv & _).
    rewrite Hv; cbn [bind]. exists v.
    destruct v.
    + exists (Some (r, c)). split; [done|].
      split; [done|]. split; [done|].
      intros r' c' [= <- <-]. split; [done|]. split; [done|].
      rewrite board_get_cell by done. f_equal. by apply is_king_of_true.
    + exists None. by repeat split.
  - exists false, None. by repeat split.
Qed.

Lemma draw_in_check_sq_king_witness :
  let g := mkGame start_position White None [] false "" in
  wf_board (board g) = true /\
  exists chk sq,
    is_in_check (board g) (turn g) = Ok chk /\
    draw_in_check_sq g = Ok sq /\
    (sq = None <-> chk = false) /\
    forall r c, sq = Some (r, c) ->
      find_king (board g) (turn g) = Ok (Some (r, c)) /\
      in_bounds r c = true /\
      board_get (board g) r c = Ok (Some (mkPiece (turn g) King)).
Proof.
  intros g. split; [reflexivity|].
  apply (draw_in_check_sq_king g). reflexivity.
Defined.

(** X20: whatever the state, [restart] raises nothing and yields the start
    of a game: the board of [initial_board], White to move, nothing
    selected, the game in play; that state satisfies the controller's
    invariant. *)
Theorem restart_establishes_invariant (g : Game) :
  exists g0, restart g = Ok g0 /\ ctl_inv g0 /\
    initial_board = Ok (board g0) /\ turn g0 = White /\
    selected g0 = None /\ legal_for_selected g0 = [] /\
    game_over g0 = false.
Proof.
  exists (mkGame start_position White None [] false "").
  split; [by vm_compute|]. split; [by split|]. by repeat split.
Qed.
